(** * EIP-6963 provider discovery (packages/web3/src/web3_eip6963.ts)

    A shallow embedding of the module [web3_eip6963.ts]: the string enum
    [Eip6963EventName], the module-level [Map] [eip6963Providers], the arrow
    function subscribed to the announce channel and the exported function
    [requestEIP6963Providers], together with the part of the JavaScript
    run time the module touches: values and property reads, a heap of [Map]
    objects addressed by reference, and the event target [window] with its
    listener list and its synchronous [dispatchEvent]. *)

From stdpp Require Import base strings gmap list fin_maps infinite.

Set Warnings "-clear-no-such-hyp".

Local Open Scope string_scope.
Local Open Scope list_scope.

(** ** JavaScript values *)

(** The fragment of values the module can meet in an event payload.  An object
    carries its identity next to its own properties: two object values denote
    the same JavaScript object exactly when their identities agree.  Numbers
    are left out (they would bring floating point with them). *)
#[warnings="-register-all"] Inductive value : Type :=
  | VUndefined
  | VNull
  | VBoolean (b : bool)
  | VString (s : string)
  | VObject (id : nat) (props : list (string * value)).

(** What a [Map] compares keys by (SameValueZero): primitives by content,
    objects by identity. *)
Inductive key : Type :=
  | KUndefined
  | KNull
  | KBoolean (b : bool)
  | KString (s : string)
  | KObject (id : nat).

Definition key_of (v : value) : key :=
  match v with
  | VUndefined => KUndefined
  | VNull => KNull
  | VBoolean b => KBoolean b
  | VString s => KString s
  | VObject id _ => KObject id
  end.

#[global] Instance key_eq_dec : EqDecision key.
Proof. solve_decision. Defined.

Definition key_code (k : key) : unit + unit + bool + string + nat :=
  match k with
  | KUndefined => inl (inl (inl (inl tt)))
  | KNull => inl (inl (inl (inr tt)))
  | KBoolean b => inl (inl (inr b))
  | KString s => inl (inr s)
  | KObject id => inr id
  end.

Definition key_decode (c : unit + unit + bool + string + nat) : key :=
  match c with
  | inl (inl (inl (inl _))) => KUndefined
  | inl (inl (inl (inr _))) => KNull
  | inl (inl (inr b)) => KBoolean b
  | inl (inr s) => KString s
  | inr id => KObject id
  end.

#[global] Instance key_countable : Countable key.
Proof.
  apply (inj_countable' key_code key_decode).
  intros []; reflexivity.
Defined.

(** Exceptions.  [Error] is what [new Error(message)] builds; [TypeError] and
    [ReferenceError] are raised by the run time itself. *)
Inductive exn : Type :=
  | Error (message : string)
  | TypeError
  | ReferenceError.

Inductive completion (A : Type) : Type :=
  | Normal (a : A)
  | Throw (e : exn).
Arguments Normal {A} a.
Arguments Throw {A} e.

(** [v.p] for a property name [p] that no built-in prototype defines (the
    module reads [info] and [uuid] only): reading a property of [undefined] or
    [null] throws a [TypeError], a primitive has no such property, an object
    yields its own property or [undefined]. *)
Definition get_prop (v : value) (p : string) : completion value :=
  match v with
  | VUndefined | VNull => Throw TypeError
  | VBoolean _ | VString _ => Normal VUndefined
  | VObject _ props =>
      match list_find (λ kv, kv.1 = p) props with
      | Some (_, (_, x)) => Normal x
      | None => Normal VUndefined
      end
  end.

(** ** Events, listeners and the world *)

Definition loc := nat.

(** An event as a listener sees it: its [type] tag and its [detail]
    ([undefined] on a plain [Event], which has no such property). *)
Record Event : Type := { type : string; detail : value }.

Definition new_Event (t : string) : Event := {| type := t; detail := VUndefined |}.
Definition new_CustomEvent (t : string) (d : value) : Event := {| type := t; detail := d |}.

(** The function objects that can sit on [window]'s listener list: the arrow
    function of lines 58-63 of this module, and a third-party announcer (a
    wallet extension) which answers a request event by synchronously
    dispatching one announce event per detail it holds. *)
Inductive FunctionBody : Type :=
  | AnnounceHandler
  | WalletAnnouncer (details : list value).

Record EventListener : Type :=
  { el_type : string; el_fn : nat; el_body : FunctionBody }.

Inductive effect : Type :=
  | Subscribed (t : string) (fn : nat)
  | Dispatched (event : Event).

(** The state a call runs in.  [window] is [None] where [typeof window] is
    ['undefined'], otherwise the listener list of the global event target in
    subscription order.  [heap] holds the [Map] objects by content, that is
    what [get], [has] and [size] observe (the order in which a [Map] iterates
    its entries is not recorded), [reported] the
    exceptions listeners threw (the event loop reports them, it does not
    propagate them), [log] the subscriptions and dispatches made so far. *)
Record world : Type :=
  { window : option (list EventListener);
    heap : gmap loc (gmap key value);
    reported : list exn;
    log : list effect }.

Definition set_window (ls : list EventListener) (w : world) : world :=
  {| window := Some ls; heap := heap w; reported := reported w; log := log w |}.
Definition set_heap (h : gmap loc (gmap key value)) (w : world) : world :=
  {| window := window w; heap := h; reported := reported w; log := log w |}.
Definition report (e : exn) (w : world) : world :=
  {| window := window w; heap := heap w; reported := reported w ++ [e]; log := log w |}.
Definition record (x : effect) (w : world) : world :=
  {| window := window w; heap := heap w; reported := reported w; log := log w ++ [x] |}.

(** ** Computations: state passing with exceptions *)

Definition M (A : Type) : Type := world → completion A * world.

#[global] Instance M_ret : MRet M := λ A a w, (Normal a, w).
#[global] Instance M_bind : MBind M := λ A B f m w,
  match m w with
  | (Normal a, w') => f a w'
  | (Throw e, w') => (Throw e, w')
  end.

Definition throw {A} (e : exn) : M A := λ w, (Throw e, w).
Definition lift_completion {A} (c : completion A) : M A := λ w, (c, w).

(** Run [f] on each element in order, stopping at the first exception. *)
Fixpoint forM_ {A} (f : A → M unit) (xs : list A) : M unit :=
  match xs with
  | [] => mret tt
  | x :: xs' => f x ≫= λ _, forM_ f xs'
  end.

(** A listener invoked by the dispatch algorithm: an exception it throws is
    reported and the dispatch goes on with the next listener. *)
Definition report_exception (m : M unit) : M unit := λ w,
  match m w with
  | (Normal _, w') => (Normal tt, w')
  | (Throw e, w') => (Normal tt, report e w')
  end.

(** ** The module web3_eip6963.ts *)

(** The string enum of lines 21-24. *)
Module Eip6963EventName.
Definition eip6963announceProvider : string := "eip6963:announceProvider".
Definition eip6963requestProvider : string := "eip6963:requestProvider".
End Eip6963EventName.
Import Eip6963EventName.

(** The message of the [Error] thrown at lines 52-54. *)
Definition window_not_available : string :=
  "window object not available, EIP-6963 is intended to be used within a browser".

(** [m.set(k, v)] on the [Map] object at [l]; the receiver must be a [Map]. *)
Definition Map_set (l : loc) (k v : value) : M unit := λ w,
  match heap w !! l with
  | Some m => (Normal tt, set_heap (<[l := <[key_of k := v]> m]> (heap w)) w)
  | None => (Throw TypeError, w)
  end.

(** [new Map()]: a fresh reference to an empty map. *)
Definition new_Map : M loc := λ w,
  let l := fresh (dom (heap w)) in (Normal l, set_heap (<[l := ∅]> (heap w)) w).

(** A function expression evaluates to a new function object, distinct from
    every function object already subscribed. *)
Definition new_function (w : world) : nat :=
  fresh (el_fn <$> default [] (window w)).

(** [window.addEventListener(t, fn)]: appends the listener unless the same
    function object is already subscribed to [t]. *)
Definition addEventListener (t : string) (fn : nat) (body : FunctionBody) : M unit := λ w,
  match window w with
  | None => (Throw ReferenceError, w)
  | Some ls =>
      if bool_decide (Exists (λ l, el_type l = t ∧ el_fn l = fn) ls)
      then (Normal tt, w)
      else (Normal tt,
            set_window (ls ++ [{| el_type := t; el_fn := fn; el_body := body |}])
                       (record (Subscribed t fn) w))
  end.

Section web3_eip6963.

(** Line 47: the reference [new Map()] returned when the module was
    evaluated; the binding is [const]. *)
Variable eip6963Providers : loc.

(** Lines 58-63, the arrow function: the key [event.detail.info.uuid] is
    evaluated first, then [event.detail], then [set] is called. *)
Definition announceListener (event : Event) : M unit :=
  info ← lift_completion (get_prop (detail event) "info");
  uuid ← lift_completion (get_prop info "uuid");
  Map_set eip6963Providers uuid (detail event).

(** The body of a subscribed function applied to [event].  A wallet reacts to
    request events only; [deliver] is how the events it dispatches reach
    [window]. *)
Definition call (deliver : Event → M unit) (event : Event) (body : FunctionBody) : M unit :=
  match body with
  | AnnounceHandler => announceListener event
  | WalletAnnouncer details =>
      if bool_decide (type event = eip6963requestProvider)
      then forM_ (λ d, deliver (new_CustomEvent eip6963announceProvider d)) details
      else mret tt
  end.

Definition invoke (deliver : Event → M unit) (event : Event) (l : EventListener) : M unit :=
  report_exception (call deliver event (el_body l)).

(** The dispatch algorithm: the listeners subscribed to the event's type
    when the dispatch starts are invoked in subscription order. *)
Definition fire (deliver : Event → M unit) (event : Event) : M unit := λ w,
  match window w with
  | None => (Throw ReferenceError, w)
  | Some ls =>
      forM_ (invoke deliver event)
            (filter (λ l, el_type l = type event) ls)
            (record (Dispatched event) w)
  end.

(** A dispatch made from inside a wallet's request handler.  The event is an
    announce event, so no wallet dispatches anything further on it. *)
Definition dispatch_nested (event : Event) : M unit :=
  fire (λ _, mret tt) event.

(** [window.dispatchEvent(event)]. *)
Definition dispatchEvent (event : Event) : M bool :=
  fire dispatch_nested event ≫= λ _, mret true.

(** Lines 49-69. *)
Definition requestEIP6963Providers : M loc := λ w,
  match window w with
  | None => throw (Error window_not_available) w
  | Some _ =>
      (addEventListener eip6963announceProvider (new_function w) AnnounceHandler ≫= λ _,
       dispatchEvent (new_Event eip6963requestProvider) ≫= λ _,
       mret eip6963Providers) w
  end.

(** ** The system over time *)

(** What can happen in one turn of the event loop: a caller runs the discovery
    operation, or some agent dispatches an event on [window] (an announcer
    announcing itself, for one). *)
Inductive action : Type :=
  | Discover
  | Deliver (event : Event).

(** One turn; an exception that escapes it is reported by the event loop. *)
Definition turn (a : action) : M unit :=
  report_exception
    match a with
    | Discover => requestEIP6963Providers ≫= λ _, mret tt
    | Deliver event => dispatchEvent event ≫= λ _, mret tt
    end.

Definition run (acts : list action) (w : world) : world :=
  foldl (λ w a, (turn a w).2) w acts.

(** ** Vocabulary for the statements *)

(** The content of the module's [Map], read through the reference. *)
Definition registry (w : world) : option (gmap key value) :=
  heap w !! eip6963Providers.

(** [detail.info.uuid], as the arrow function evaluates it. *)
Definition uuid_of (d : value) : completion value :=
  match get_prop d "info" with
  | Normal info => get_prop info "uuid"
  | Throw e => Throw e
  end.

(** The arrow function's effect on the content of the map. *)
Definition upsert (d : value) (m : gmap key value) : gmap key value :=
  match uuid_of d with
  | Normal uuid => <[key_of uuid := d]> m
  | Throw _ => m
  end.

(** The details the wallets subscribed to the request channel announce during
    one request dispatch, in order. *)
Definition announcements (l : EventListener) : list value :=
  match el_body l with
  | WalletAnnouncer details => details
  | AnnounceHandler => []
  end.

Definition announced (ls : list EventListener) : list value :=
  filter (λ l, el_type l = eip6963requestProvider) ls ≫= announcements.

(** The arrow functions of this module subscribed to the channel [t]. *)
Definition is_handler (l : EventListener) : bool :=
  match el_body l with
  | AnnounceHandler => true
  | WalletAnnouncer _ => false
  end.

Definition handlers (t : string) (ls : list EventListener) : list EventListener :=
  filter (λ l, el_type l = t ∧ is_handler l = true) ls.

(** Whether an arrow function of this module is subscribed to [t]. *)
Definition subscribed (t : string) (ls : list EventListener) : bool :=
  existsb is_handler (filter (λ l, el_type l = t) ls).

(** What one listener of a request-type event does to the content of the map:
    an arrow function of this module upserts the event's own detail, a wallet
    has each of its details upserted provided an arrow function listens on
    the announce channel. *)
Definition request_effect (ls : list EventListener) (event : Event)
    (m : gmap key value) (l : EventListener) : gmap key value :=
  match el_body l with
  | AnnounceHandler => upsert (detail event) m
  | WalletAnnouncer details =>
      if subscribed eip6963announceProvider ls then foldl (flip upsert) m details else m
  end.

(** The listener the discovery operation subscribes in [w]. *)
Definition new_listener (w : world) : EventListener :=
  {| el_type := eip6963announceProvider; el_fn := new_function w; el_body := AnnounceHandler |}.

(** The announce event a wallet builds around a detail. *)
Definition announce (d : value) : Event := new_CustomEvent eip6963announceProvider d.

(** [w'] is [w] with the content of the module's map replaced by [m'] and
    [logged] appended to the log; the listener list and every other map are
    the same. *)
Definition leaves (w w' : world) (m' : gmap key value) (logged : list effect) : Prop :=
  window w' = window w ∧
  heap w' = <[eip6963Providers := m']> (heap w) ∧
  log w' = log w ++ logged.

(** What any number of turns can do to the world: listeners are only added at
    the end of the list, and the module's map only receives upserts. *)
Definition evolves (w w' : world) : Prop :=
  match window w with
  | Some ls => ∃ more, window w' = Some (ls ++ more)
  | None => window w' = None
  end ∧
  ∀ m, registry w = Some m →
    ∃ ds, heap w' = <[eip6963Providers := foldl (flip upsert) m ds]> (heap w).

(** Every entry's key is the [info.uuid] of the detail stored under it. *)
Definition consistent (m : gmap key value) : Prop :=
  ∀ k d, m !! k = Some d → ∃ uuid, uuid_of d = Normal uuid ∧ key_of uuid = k.

(** [undefined] and [null], the values without properties. *)
Definition nullish (v : value) : bool :=
  match v with
  | VUndefined | VNull => true
  | _ => false
  end.

(** The log of [w'] continues the log of [w]; the listener list of [w'] is
    that of [w]. *)
Definition log_extends (w w' : world) : Prop := ∃ rest, log w' = log w ++ rest.
Definition same_window (w w' : world) : Prop := window w' = window w.

(** The key under which the arrow function files a detail, when it can read
    one. *)
Definition announced_key (d : value) : option key :=
  match uuid_of d with
  | Normal uuid => Some (key_of uuid)
  | Throw _ => None
  end.

(** The last detail of [ds] that the arrow function files under [k]. *)
Definition last_announced (k : key) (ds : list value) : option value :=
  last (filter (λ d, announced_key d = Some k) ds).

(** The number of discovery calls among some turns. *)
Definition is_discover (a : action) : bool :=
  match a with
  | Discover => true
  | Deliver _ => false
  end.

Definition discoveries (acts : list action) : nat :=
  length (filter (λ a, is_discover a = true) acts).

(** ** Sample data *)

(** A wallet's announcement: [info] with the four fields of
    [EIP6963ProviderInfo], and a provider object. *)
Definition wallet1_info : value :=
  VObject 1 [("uuid", VString "abc"); ("name", VString "Wallet1");
             ("icon", VString "data:image/svg+xml,w1"); ("rdns", VString "com.wallet1")].
Definition wallet1_detail : value :=
  VObject 2 [("info", wallet1_info); ("provider", VObject 3 [])].

(** The same wallet announcing again under another name. *)
Definition wallet1_renamed : value :=
  VObject 5
    [("info", VObject 4 [("uuid", VString "abc"); ("name", VString "Wallet One");
                         ("icon", VString "data:image/svg+xml,w1"); ("rdns", VString "com.wallet1")]);
     ("provider", VObject 3 [])].

Definition wallet2_detail : value :=
  VObject 7
    [("info", VObject 6 [("uuid", VString "b"); ("name", VString "Wallet2");
                         ("icon", VString "data:image/svg+xml,w2"); ("rdns", VString "com.wallet2")]);
     ("provider", VObject 8 [])].

(** A detail whose [info] has no [uuid], and a payload without [info]. *)
Definition anonymous_detail : value :=
  VObject 10 [("info", VObject 9 [("name", VString "Nameless")]); ("provider", VObject 11 [])].
Definition detail_without_info : value := VObject 12 [("provider", VObject 13 [])].

(** A wallet extension listening on the request channel. *)
Definition wallet1 : EventListener :=
  {| el_type := eip6963requestProvider; el_fn := 0; el_body := WalletAnnouncer [wallet1_detail] |}.

(** The arrow function of this module, as an earlier discovery call left it
    on the announce channel. *)
Definition page_listener : EventListener :=
  {| el_type := eip6963announceProvider; el_fn := 1; el_body := AnnounceHandler |}.

(** A second wallet extension, a second arrow function left by another
    discovery call, and a page that also holds a map of its own at
    reference 1. *)
Definition wallet2 : EventListener :=
  {| el_type := eip6963requestProvider; el_fn := 2; el_body := WalletAnnouncer [wallet2_detail] |}.
Definition page_listener2 : EventListener :=
  {| el_type := eip6963announceProvider; el_fn := 3; el_body := AnnounceHandler |}.
Definition page_with_own_map : world :=
  {| window := Some [wallet1];
     heap := <[ 1 := {[ KString "theme" := VString "dark" ]} ]> {[ 0 := ∅ ]};
     reported := []; log := [] |}.

(** Another extension announcing under the uuid of the first wallet. *)
Definition wallet1_again : EventListener :=
  {| el_type := eip6963requestProvider; el_fn := 4; el_body := WalletAnnouncer [wallet1_renamed] |}.

(** Worlds in which the module has just been evaluated (its empty map is at
    reference 0): a browser page with the given listeners, and a run time
    without [window]. *)
Definition browser (ls : list EventListener) : world :=
  {| window := Some ls; heap := {[ 0 := ∅ ]}; reported := []; log := [] |}.
Definition no_window : world :=
  {| window := None; heap := {[ 0 := ∅ ]}; reported := []; log := [] |}.

(** ** Basic facts *)

Lemma upsert_idemp d m : upsert d (upsert d m) = upsert d m.
Proof. unfold upsert. destruct (uuid_of d); [apply insert_insert_eq | done]. Qed.

Lemma upsert_dom d m : dom m ⊆ dom (upsert d m).
Proof. unfold upsert. destruct (uuid_of d); [rewrite dom_insert_L; set_solver | done]. Qed.

Lemma upsert_lookup d u m : uuid_of d = Normal u → upsert d m !! key_of u = Some d.
Proof. intros H. unfold upsert. rewrite H. apply lookup_insert_eq. Qed.

Lemma forM__cons {A} (f : A → M unit) x xs w :
  (f x w).1 = Normal tt → forM_ f (x :: xs) w = forM_ f xs (f x w).2.
Proof.
  intros H. cbn. unfold mbind, M_bind. destruct (f x w) as [c w']. cbn in *. by subst.
Qed.

Lemma forM__normal {A} (f : A → M unit) xs w :
  (∀ x w, (f x w).1 = Normal tt) → (forM_ f xs w).1 = Normal tt.
Proof.
  intros Hf. revert w. induction xs as [|x xs IH]; intros w; [done|].
  rewrite forM__cons by apply Hf. apply IH.
Qed.

Lemma report_exception_normal m w : (report_exception m w).1 = Normal tt.
Proof. unfold report_exception. by destruct (m w) as [[] ?]. Qed.

Lemma invoke_normal deliver event l w : (invoke deliver event l w).1 = Normal tt.
Proof. apply report_exception_normal. Qed.

(** The arrow function: its completion, and the world it leaves. *)
Lemma announceListener_eq event w m :
  registry w = Some m →
  announceListener event w =
    (match uuid_of (detail event) with Normal _ => Normal tt | Throw e => Throw e end,
     set_heap (<[eip6963Providers := upsert (detail event) m]> (heap w)) w).
Proof.
  unfold registry. intros Hm.
  assert (set_heap (<[eip6963Providers := m]> (heap w)) w = w) as Hid.
  { rewrite insert_id by done. by destruct w. }
  unfold announceListener, upsert, uuid_of, mbind, M_bind, lift_completion.
  destruct (get_prop (detail event) "info") as [info|e]; [|by rewrite Hid].
  destruct (get_prop info "uuid") as [uuid|e]; [|by rewrite Hid].
  unfold Map_set. by rewrite Hm.
Qed.

Lemma leaves_refl w m : registry w = Some m → leaves w w m [].
Proof.
  intros Hm. split_and!; [done | by rewrite insert_id | by rewrite app_nil_r].
Qed.

Lemma leaves_trans w1 w2 w3 m2 m3 r1 r2 r :
  leaves w1 w2 m2 r1 → leaves w2 w3 m3 r2 → r = r1 ++ r2 → leaves w1 w3 m3 r.
Proof.
  intros (Hw1 & Hh1 & Hl1) (Hw2 & Hh2 & Hl2) ->. split_and!.
  - congruence.
  - by rewrite Hh2, Hh1, insert_insert_eq.
  - by rewrite Hl2, Hl1, app_assoc.
Qed.

Lemma leaves_registry w w' m' r : leaves w w' m' r → registry w' = Some m'.
Proof. intros (_ & Hh & _). unfold registry. rewrite Hh. apply lookup_insert_eq. Qed.

Lemma leaves_window w w' m' r ls : leaves w w' m' r → window w = Some ls → window w' = Some ls.
Proof. intros (Hw & _) <-. done. Qed.

Lemma leaves_record x w w' m' r : leaves (record x w) w' m' r → leaves w w' m' (x :: r).
Proof.
  intros (Hw & Hh & Hl). split_and!; [done | done |].
  rewrite Hl. cbn. by rewrite <- app_assoc.
Qed.

Lemma invoke_handler deliver event l w m :
  registry w = Some m → is_handler l = true →
  leaves w (invoke deliver event l w).2 (upsert (detail event) m) [].
Proof.
  intros Hm Hl. unfold invoke, is_handler in *.
  destruct (el_body l); [|done]. cbn [call]. unfold report_exception.
  rewrite (announceListener_eq _ _ _ Hm).
  destruct (uuid_of (detail event)); cbn; (split_and!; [done | done | by rewrite app_nil_r]).
Qed.

Lemma invoke_wallet_quiet deliver event l w :
  type event ≠ eip6963requestProvider → is_handler l = false →
  invoke deliver event l w = (Normal tt, w).
Proof.
  intros Ht Hl. unfold invoke, is_handler in *.
  destruct (el_body l); [done|]. cbn [call]. by rewrite bool_decide_eq_false_2.
Qed.

(** The listeners of an event that is not a request event: the first arrow
    function among them upserts the event's detail, the others repeat it;
    nothing is dispatched meanwhile. *)
Lemma forM_invoke_quiet deliver event fs :
  type event ≠ eip6963requestProvider →
  ∀ w m, registry w = Some m →
    leaves w (forM_ (invoke deliver event) fs w).2
           (if existsb is_handler fs then upsert (detail event) m else m) [].
Proof.
  intros Ht. induction fs as [|l fs IH]; intros w m Hm; [by apply leaves_refl|].
  rewrite forM__cons by apply invoke_normal. cbn [existsb].
  destruct (is_handler l) eqn:Hl; cbn [orb].
  - pose proof (invoke_handler deliver event l w m Hm Hl) as H1.
    eapply leaves_trans; [exact H1 | | reflexivity].
    specialize (IH _ _ (leaves_registry _ _ _ _ H1)).
    rewrite upsert_idemp in IH. by destruct (existsb is_handler fs).
  - rewrite invoke_wallet_quiet by done. by apply IH.
Qed.

Lemma fire_normal deliver event w ls :
  window w = Some ls → (fire deliver event w).1 = Normal tt.
Proof. intros Hw. unfold fire. rewrite Hw. apply forM__normal, invoke_normal. Qed.

Lemma fire_quiet deliver event w ls m :
  window w = Some ls → registry w = Some m →
  type event ≠ eip6963requestProvider →
  leaves w (fire deliver event w).2
         (if subscribed (type event) ls then upsert (detail event) m else m)
         [Dispatched event].
Proof.
  intros Hw Hm Ht. unfold fire. rewrite Hw.
  eapply leaves_record, forM_invoke_quiet; done.
Qed.

Lemma announce_not_request : eip6963announceProvider ≠ eip6963requestProvider.
Proof. discriminate. Qed.

Lemma report_exception_snd (m : M unit) w :
  (m w).1 = Normal tt → (report_exception m w).2 = (m w).2.
Proof. unfold report_exception. destruct (m w) as [[] ?]; cbn; [done | discriminate]. Qed.

(** The announce events a wallet dispatches from inside its handler. *)
Lemma forM_nested ls details :
  ∀ w m, window w = Some ls → registry w = Some m →
    let r := forM_ (λ d, dispatch_nested (new_CustomEvent eip6963announceProvider d)) details w in
    r.1 = Normal tt ∧
    leaves w r.2 (if subscribed eip6963announceProvider ls
                  then foldl (flip upsert) m details else m)
           (Dispatched ∘ announce <$> details).
Proof.
  induction details as [|d ds IH]; intros w m Hw Hm; cbn zeta.
  { split; [done|]. apply leaves_refl. by destruct (subscribed _ _). }
  fold (announce d).
  rewrite forM__cons by (eapply fire_normal; done).
  pose proof (fire_quiet (λ _, mret tt) (announce d) w ls m Hw Hm announce_not_request) as H1.
  fold (dispatch_nested (announce d)) in H1.
  destruct (IH _ _ (leaves_window _ _ _ _ _ H1 Hw) (leaves_registry _ _ _ _ H1)) as [Hn H2].
  split; [done|].
  eapply leaves_trans; [exact H1 | | reflexivity].
  cbn [type announce new_CustomEvent detail] in *.
  by destruct (subscribed _ _).
Qed.

Lemma invoke_request ls event l w m :
  type event = eip6963requestProvider →
  window w = Some ls → registry w = Some m →
  leaves w (invoke dispatch_nested event l w).2 (request_effect ls event m l)
         (Dispatched ∘ announce <$> announcements l).
Proof.
  intros Ht Hw Hm. unfold request_effect, announcements.
  destruct (el_body l) as [|ds] eqn:Hb.
  { apply invoke_handler; [done|]. unfold is_handler. by rewrite Hb. }
  unfold invoke. rewrite Hb. cbn [call]. rewrite bool_decide_eq_true_2 by done.
  destruct (forM_nested ls ds w m Hw Hm) as [Hn Hl].
  by rewrite report_exception_snd.
Qed.

Lemma forM_invoke_request ls event fs :
  type event = eip6963requestProvider →
  ∀ w m, window w = Some ls → registry w = Some m →
    leaves w (forM_ (invoke dispatch_nested event) fs w).2
           (foldl (request_effect ls event) m fs)
           (Dispatched ∘ announce <$> (fs ≫= announcements)).
Proof.
  intros Ht. induction fs as [|l fs IH]; intros w m Hw Hm; [by apply leaves_refl|].
  rewrite forM__cons by apply invoke_normal.
  pose proof (invoke_request ls event l w m Ht Hw Hm) as H1.
  eapply leaves_trans; [exact H1 | | by rewrite bind_cons, fmap_app]. cbn [foldl].
  apply IH; [by eapply leaves_window | by eapply leaves_registry].
Qed.

(** A request event without payload, with an arrow function listening on the
    announce channel: the map receives what the wallets announce, in order. *)
Lemma request_effect_announced ls fs m :
  subscribed eip6963announceProvider ls = true →
  foldl (request_effect ls (new_Event eip6963requestProvider)) m fs
  = foldl (flip upsert) m (fs ≫= announcements).
Proof.
  intros Hs. revert m. induction fs as [|l fs IH]; intros m; [done|].
  cbn [foldl]. rewrite bind_cons, foldl_app, IH. f_equal.
  unfold request_effect, announcements. rewrite Hs. by destruct (el_body l).
Qed.

(** Whatever the event and the listeners, the map only receives upserts. *)
Lemma request_effect_upserts ls event fs m :
  ∃ ds, foldl (request_effect ls event) m fs = foldl (flip upsert) m ds.
Proof.
  revert m. induction fs as [|l fs IH]; intros m; [by exists []|].
  cbn [foldl]. destruct (IH (request_effect ls event m l)) as [ds ->].
  unfold request_effect. destruct (el_body l) as [|ds'].
  - by exists (detail event :: ds).
  - destruct (subscribed _ _); [|by exists ds].
    exists (ds' ++ ds). by rewrite foldl_app.
Qed.

Lemma dispatchEvent_snd event w :
  (dispatchEvent event w).2 = (fire dispatch_nested event w).2.
Proof.
  unfold dispatchEvent, mbind, M_bind. by destruct (fire dispatch_nested event w) as [[] ?].
Qed.

Lemma dispatchEvent_normal event w ls :
  window w = Some ls → (dispatchEvent event w).1 = Normal true.
Proof.
  intros Hw. pose proof (fire_normal dispatch_nested event w ls Hw) as H.
  unfold dispatchEvent, mbind, M_bind.
  destruct (fire dispatch_nested event w) as [[[]|] ?]; cbn in *; [done | discriminate].
Qed.

Lemma dispatchEvent_quiet event w ls m :
  window w = Some ls → registry w = Some m →
  type event ≠ eip6963requestProvider →
  leaves w (dispatchEvent event w).2
         (if subscribed (type event) ls then upsert (detail event) m else m)
         [Dispatched event].
Proof. intros. rewrite dispatchEvent_snd. by eapply fire_quiet. Qed.

Lemma dispatchEvent_upserts event w ls m :
  window w = Some ls → registry w = Some m →
  ∃ ds logged, leaves w (dispatchEvent event w).2 (foldl (flip upsert) m ds) logged.
Proof.
  intros Hw Hm. rewrite dispatchEvent_snd.
  destruct (decide (type event = eip6963requestProvider)) as [Ht|Ht].
  - destruct (request_effect_upserts ls event
                (filter (λ l, el_type l = type event) ls) m) as [ds Hds].
    exists ds. eexists. rewrite <- Hds. unfold fire. rewrite Hw.
    eapply leaves_record, forM_invoke_request; done.
  - pose proof (fire_quiet dispatch_nested event w ls m Hw Hm Ht) as H.
    destruct (subscribed _ _); [by exists [detail event], [Dispatched event]
                               | by exists [], [Dispatched event]].
Qed.

(** A new function object is not on the listener list yet. *)
Lemma new_function_fresh t w ls :
  window w = Some ls → ¬ Exists (λ l, el_type l = t ∧ el_fn l = new_function w) ls.
Proof.
  intros Hw HE. apply Exists_exists in HE as (l & Hl & _ & Hfn).
  unfold new_function in Hfn. rewrite Hw in Hfn. cbn in Hfn.
  apply (infinite_is_fresh (el_fn <$> ls)). rewrite <- Hfn.
  by apply list_elem_of_fmap_2.
Qed.

Lemma filter_request_new w ls :
  filter (λ l, el_type l = eip6963requestProvider) (ls ++ [new_listener w])
  = filter (λ l, el_type l = eip6963requestProvider) ls.
Proof.
  rewrite filter_app, filter_cons_False, filter_nil, app_nil_r; [done|].
  cbn. apply announce_not_request.
Qed.

Lemma subscribed_app t ls ls' :
  subscribed t (ls ++ ls') = subscribed t ls || subscribed t ls'.
Proof. unfold subscribed. by rewrite filter_app, existsb_app. Qed.

Lemma subscribed_new w ls : subscribed eip6963announceProvider (ls ++ [new_listener w]) = true.
Proof. rewrite subscribed_app. apply orb_true_r. Qed.

(** The discovery operation where [window] exists: the arrow function is
    subscribed, then the request event goes to the listeners of the request
    channel, and the reference of the module's map is returned. *)
Lemma requestEIP6963Providers_eq w ls :
  window w = Some ls →
  requestEIP6963Providers w =
    (Normal eip6963Providers,
     (forM_ (invoke dispatch_nested (new_Event eip6963requestProvider))
            (filter (λ l, el_type l = eip6963requestProvider) ls)
            (record (Dispatched (new_Event eip6963requestProvider))
               (set_window (ls ++ [new_listener w])
                  (record (Subscribed eip6963announceProvider (new_function w)) w)))).2).
Proof.
  intros Hw. unfold requestEIP6963Providers. rewrite Hw.
  unfold mbind at 1, M_bind at 1. unfold addEventListener. rewrite Hw.
  rewrite bool_decide_eq_false_2 by by apply new_function_fresh.
  fold (new_listener w).
  set (w1 := set_window _ _).
  unfold mbind at 1, M_bind at 1.
  pose proof (dispatchEvent_normal (new_Event eip6963requestProvider) w1 _ eq_refl) as Hn.
  pose proof (dispatchEvent_snd (new_Event eip6963requestProvider) w1) as Hs.
  destruct (dispatchEvent _ w1) as [c w2]. cbn in Hn, Hs. subst c w2.
  unfold mret, M_ret. f_equal. unfold fire. cbn [window w1 set_window].
  by rewrite filter_request_new.
Qed.

Lemma requestEIP6963Providers_leaves w ls m :
  window w = Some ls → registry w = Some m →
  let w' := (requestEIP6963Providers w).2 in
  window w' = Some (ls ++ [new_listener w]) ∧
  heap w' = <[eip6963Providers := foldl (flip upsert) m (announced ls)]> (heap w) ∧
  log w' = log w ++ Subscribed eip6963announceProvider (new_function w)
                 :: Dispatched (new_Event eip6963requestProvider)
                 :: (Dispatched ∘ announce <$> announced ls).
Proof.
  intros Hw Hm. rewrite (requestEIP6963Providers_eq w ls Hw). cbn [snd].
  set (w1 := record _ (set_window _ _)).
  pose proof (forM_invoke_request (ls ++ [new_listener w]) (new_Event eip6963requestProvider)
                (filter (λ l, el_type l = eip6963requestProvider) ls) eq_refl
                w1 m eq_refl Hm) as (H1 & H2 & H3).
  rewrite request_effect_announced in H2 by apply subscribed_new.
  split_and!; [done | done |].
  rewrite H3. cbn. by rewrite <- !app_assoc.
Qed.

Lemma evolves_refl w : evolves w w.
Proof.
  split.
  - destruct (window w) as [ls|]; [|done]. exists []. by rewrite app_nil_r.
  - intros m Hm. exists []. by rewrite insert_id.
Qed.

Lemma evolves_trans w1 w2 w3 : evolves w1 w2 → evolves w2 w3 → evolves w1 w3.
Proof.
  intros [Hw1 Hh1] [Hw2 Hh2]. split.
  - destruct (window w1) as [ls|].
    + destruct Hw1 as [more1 Hw1]. rewrite Hw1 in Hw2. destruct Hw2 as [more2 Hw2].
      exists (more1 ++ more2). by rewrite Hw2, app_assoc.
    + by rewrite Hw1 in Hw2.
  - intros m Hm. destruct (Hh1 m Hm) as [ds1 H1].
    assert (registry w2 = Some (foldl (flip upsert) m ds1)) as Hm2.
    { unfold registry. rewrite H1. apply lookup_insert_eq. }
    destruct (Hh2 _ Hm2) as [ds2 H2]. exists (ds1 ++ ds2).
    by rewrite H2, H1, insert_insert_eq, foldl_app.
Qed.

Lemma evolves_report e w : evolves w (report e w).
Proof. destruct (evolves_refl w) as [H1 H2]. by split. Qed.

(** *** Relations that every step keeps *)

Section preservation.

Variable R : world → world → Prop.
Hypothesis R_refl : ∀ w, R w w.
Hypothesis R_trans : ∀ w1 w2 w3, R w1 w2 → R w2 w3 → R w1 w3.
Hypothesis R_heap : ∀ h w, R w (set_heap h w).
Hypothesis R_report : ∀ e w, R w (report e w).
Hypothesis R_record : ∀ x w, R w (record x w).

(** A loop keeps what each of its steps keeps, whether or not it runs to its
    end. *)
Lemma forM__preserves {A} (f : A → M unit) xs w :
  (∀ x w, R w (f x w).2) → R w (forM_ f xs w).2.
Proof.
  intros Hf. revert w. induction xs as [|x xs IH]; intros w; [apply R_refl|].
  cbn. unfold mbind, M_bind. specialize (Hf x w).
  destruct (f x w) as [[[]|e] w']; cbn in *; [|done].
  eapply R_trans; [exact Hf | apply IH].
Qed.

Lemma announceListener_preserves event w : R w (announceListener event w).2.
Proof.
  unfold announceListener, mbind, M_bind, lift_completion, Map_set.
  destruct (get_prop (detail event) "info") as [info|]; [|apply R_refl].
  destruct (get_prop info "uuid"); [|apply R_refl].
  destruct (heap w !! eip6963Providers); [apply R_heap | apply R_refl].
Qed.

Lemma invoke_preserves deliver event l w :
  (∀ ev w, R w (deliver ev w).2) → R w (invoke deliver event l w).2.
Proof.
  intros Hd. unfold invoke, report_exception.
  assert (R w (call deliver event (el_body l) w).2) as H.
  { destruct (el_body l) as [|ds]; cbn [call]; [apply announceListener_preserves|].
    case_bool_decide; [|apply R_refl]. by apply forM__preserves. }
  destruct (call deliver event (el_body l) w) as [[] w']; cbn in *; [done|].
  eapply R_trans; [exact H | apply R_report].
Qed.

Lemma forM_invoke_preserves deliver event fs w :
  (∀ ev w, R w (deliver ev w).2) → R w (forM_ (invoke deliver event) fs w).2.
Proof. intros Hd. apply forM__preserves. intros. by apply invoke_preserves. Qed.

Lemma fire_preserves deliver event w :
  (∀ ev w, R w (deliver ev w).2) → R w (fire deliver event w).2.
Proof.
  intros Hd. unfold fire. destruct (window w); [|apply R_refl].
  eapply R_trans; [apply R_record | by apply forM_invoke_preserves].
Qed.

Lemma dispatch_nested_preserves event w : R w (dispatch_nested event w).2.
Proof. apply fire_preserves. intros. apply R_refl. Qed.

Lemma dispatchEvent_preserves event w : R w (dispatchEvent event w).2.
Proof. rewrite dispatchEvent_snd. apply fire_preserves, dispatch_nested_preserves. Qed.

End preservation.

Ltac window_steps := unfold same_window; intros; cbn; congruence.

(** Dispatching never touches the listener list. *)
Lemma dispatchEvent_window event w : window (dispatchEvent event w).2 = window w.
Proof. apply (dispatchEvent_preserves same_window); window_steps. Qed.

Lemma requestEIP6963Providers_window w ls :
  window w = Some ls →
  window (requestEIP6963Providers w).2 = Some (ls ++ [new_listener w]).
Proof.
  intros Hw. rewrite (requestEIP6963Providers_eq w ls Hw). cbn [snd].
  set (w1 := record _ (set_window _ _)).
  change (Some (ls ++ [new_listener w])) with (window w1).
  apply (forM_invoke_preserves same_window); try window_steps.
  intros. apply (dispatch_nested_preserves same_window); window_steps.
Qed.

Lemma turn_Discover_snd w ls :
  window w = Some ls → (turn Discover w).2 = (requestEIP6963Providers w).2.
Proof.
  intros Hw. unfold turn, report_exception, mbind, M_bind.
  by rewrite (requestEIP6963Providers_eq w ls Hw).
Qed.

Lemma turn_Deliver_snd event w ls :
  window w = Some ls → (turn (Deliver event) w).2 = (dispatchEvent event w).2.
Proof.
  intros Hw. unfold turn, report_exception, mbind at 1, M_bind at 1.
  pose proof (dispatchEvent_normal event w ls Hw) as Hn.
  destruct (dispatchEvent event w) as [[b|e] w']; cbn in *; [done | discriminate].
Qed.

(** Without [window] a turn only reports the exception that ended it. *)
Lemma turn_no_window a w :
  window w = None → ∃ e, (turn a w).2 = report e w.
Proof.
  intros Hw. destruct a as [|event]; unfold turn, report_exception, mbind, M_bind.
  - unfold requestEIP6963Providers. rewrite Hw. by eexists.
  - unfold dispatchEvent, mbind, M_bind, fire. rewrite Hw. by eexists.
Qed.

Lemma run_no_window acts w :
  window w = None →
  window (run acts w) = None ∧ log (run acts w) = log w ∧ heap (run acts w) = heap w.
Proof.
  revert w. induction acts as [|a acts IH]; intros w Hw; [done|].
  destruct (turn_no_window a w Hw) as [e He].
  change (run (a :: acts) w) with (run acts (turn a w).2). rewrite He.
  by destruct (IH (report e w) Hw) as (-> & -> & ->).
Qed.

Lemma turn_evolves a w : evolves w (turn a w).2.
Proof.
  destruct (window w) as [ls|] eqn:Hw.
  - destruct a as [|event].
    + rewrite (turn_Discover_snd w ls Hw). split.
      * rewrite Hw. exists [new_listener w]. by apply requestEIP6963Providers_window.
      * intros m Hm. exists (announced ls).
        by destruct (requestEIP6963Providers_leaves w ls m Hw Hm) as (_ & -> & _).
    + rewrite (turn_Deliver_snd event w ls Hw). split.
      * rewrite Hw. exists []. by rewrite app_nil_r, dispatchEvent_window.
      * intros m Hm. destruct (dispatchEvent_upserts event w ls m Hw Hm) as (ds & logged & _ & H & _).
        by exists ds.
  - destruct (turn_no_window a w Hw) as [e ->]. apply evolves_report.
Qed.

Lemma run_cons a acts w : run (a :: acts) w = run acts (turn a w).2.
Proof. reflexivity. Qed.

Lemma run_app acts1 acts2 w : run (acts1 ++ acts2) w = run acts2 (run acts1 w).
Proof. apply foldl_app. Qed.

Lemma run_evolves acts w : evolves w (run acts w).
Proof.
  revert w. induction acts as [|a acts IH]; intros w; [apply evolves_refl|].
  rewrite run_cons. eapply evolves_trans; [apply turn_evolves | apply IH].
Qed.

(** Upserts never remove a key and keep every key equal to the uuid of its
    detail. *)
Lemma upserts_dom ds m : dom m ⊆ dom (foldl (flip upsert) m ds).
Proof.
  revert m. induction ds as [|d ds IH]; intros m; [done|].
  cbn [foldl]. etrans; [apply (upsert_dom d) | apply IH].
Qed.

Lemma upsert_consistent d m : consistent m → consistent (upsert d m).
Proof.
  intros Hc k d'. unfold upsert. destruct (uuid_of d) as [u|] eqn:Hu; [|apply Hc].
  rewrite lookup_insert. case_decide as Hk.
  - intros [= <-]. by exists u.
  - apply Hc.
Qed.

Lemma upserts_consistent ds m : consistent m → consistent (foldl (flip upsert) m ds).
Proof.
  revert m. induction ds as [|d ds IH]; intros m Hc; [done|].
  cbn [foldl]. by apply IH, upsert_consistent.
Qed.

Lemma turn_Deliver_registry event w ls m :
  window w = Some ls → registry w = Some m →
  type event ≠ eip6963requestProvider →
  subscribed (type event) ls = true →
  registry (turn (Deliver event) w).2 = Some (upsert (detail event) m).
Proof.
  intros Hw Hm Ht Hs. rewrite (turn_Deliver_snd event w ls Hw).
  pose proof (dispatchEvent_quiet event w ls m Hw Hm Ht) as H.
  rewrite Hs in H. by eapply leaves_registry.
Qed.

Lemma evolves_registry w w' m :
  evolves w w' → registry w = Some m →
  ∃ ds, registry w' = Some (foldl (flip upsert) m ds).
Proof.
  intros [_ H] Hm. destruct (H m Hm) as [ds Hds]. exists ds.
  unfold registry. rewrite Hds. apply lookup_insert_eq.
Qed.

Lemma evolves_subscribed w w' t ls :
  evolves w w' → window w = Some ls → subscribed t ls = true →
  ∃ ls', window w' = Some ls' ∧ subscribed t ls' = true.
Proof.
  intros [H _] Hw Hs. rewrite Hw in H. destruct H as [more H].
  exists (ls ++ more). split; [done|]. by rewrite subscribed_app, Hs.
Qed.

Lemma handlers_app t ls ls' : handlers t (ls ++ ls') = handlers t ls ++ handlers t ls'.
Proof. apply filter_app. Qed.

Lemma handlers_all t ls :
  Forall (λ l, el_type l = t ∧ el_body l = AnnounceHandler) ls → handlers t ls = ls.
Proof.
  induction 1 as [|l ls [Ht Hb] Hrest IH]; [done|].
  unfold handlers in *. rewrite filter_cons_True, IH; [done|].
  split; [done|]. unfold is_handler. by rewrite Hb.
Qed.

Lemma run_announces ds :
  ∀ w ls m, window w = Some ls → registry w = Some m →
    subscribed eip6963announceProvider ls = true →
    registry (run ((λ d, Deliver (new_CustomEvent eip6963announceProvider d)) <$> ds) w)
    = Some (foldl (flip upsert) m ds).
Proof.
  induction ds as [|d ds IH]; intros w ls m Hw Hm Hs; [done|].
  rewrite fmap_cons, run_cons. cbn [foldl].
  set (ev := new_CustomEvent eip6963announceProvider d).
  apply (IH _ ls).
  - by rewrite (turn_Deliver_snd ev w ls Hw), dispatchEvent_window.
  - by apply (turn_Deliver_registry ev w ls m Hw Hm announce_not_request).
  - done.
Qed.

Lemma upserts_dom_strings (anns : list (string * value)) :
  Forall (λ a, uuid_of a.2 = Normal (VString a.1)) anns →
  ∀ m, dom (foldl (flip upsert) m anns.*2) = dom m ∪ list_to_set (KString <$> anns.*1).
Proof.
  induction 1 as [|[id d] anns Hd _ IH]; intros m; cbn.
  { set_solver. }
  rewrite IH. unfold upsert. cbn in Hd. rewrite Hd. cbn [key_of].
  rewrite dom_insert_L. set_solver.
Qed.

Lemma log_extends_eq w w' : log w' = log w → log_extends w w'.
Proof. intros H. exists []. by rewrite app_nil_r. Qed.

Lemma log_extends_trans w1 w2 w3 : log_extends w1 w2 → log_extends w2 w3 → log_extends w1 w3.
Proof. intros [r1 H1] [r2 H2]. exists (r1 ++ r2). by rewrite H2, H1, app_assoc. Qed.

Lemma log_extends_record x w : log_extends w (record x w).
Proof. by exists [x]. Qed.

Ltac log_steps :=
  first [ exact log_extends_trans
        | intros; apply log_extends_eq; reflexivity
        | intros; apply log_extends_record ].

(** The log of a discovery call starts with the subscription, followed by the
    dispatch of the request event; this needs no map at the reference. *)
Lemma requestEIP6963Providers_log w ls :
  window w = Some ls →
  ∃ rest, log (requestEIP6963Providers w).2
          = log w ++ Subscribed eip6963announceProvider (new_function w)
                  :: Dispatched (new_Event eip6963requestProvider) :: rest.
Proof.
  intros Hw. rewrite (requestEIP6963Providers_eq w ls Hw). cbn [snd].
  set (w1 := record _ (set_window _ _)).
  assert (log_extends w1
            (forM_ (invoke dispatch_nested (new_Event eip6963requestProvider))
                   (filter (λ l, el_type l = eip6963requestProvider) ls) w1).2)
    as [rest Hrest].
  { apply (forM_invoke_preserves log_extends); try log_steps.
    intros. apply (dispatch_nested_preserves log_extends); log_steps. }
  exists rest. rewrite Hrest. cbn. by rewrite <- !app_assoc.
Qed.

Lemma upserts_lookup_last ds d uuid m :
  uuid_of d = Normal uuid →
  Forall (λ d', ∀ uuid', uuid_of d' = Normal uuid' → key_of uuid' ≠ key_of uuid) ds →
  m !! key_of uuid = Some d →
  foldl (flip upsert) m ds !! key_of uuid = Some d.
Proof.
  intros Hu Hds. revert m. induction Hds as [|d' ds Hd' _ IH]; intros m Hm; [done|].
  cbn [foldl]. apply IH. unfold flip, upsert.
  destruct (uuid_of d') as [u'|] eqn:Hu'; [|done].
  rewrite lookup_insert_ne; [done|]. by apply Hd'.
Qed.

Lemma get_prop_nullish v p :
  get_prop v p = Throw TypeError ∧ nullish v = true ∨
  (∃ x, get_prop v p = Normal x) ∧ nullish v = false.
Proof.
  destruct v as [| | | |id props]; cbn; eauto.
  right. split; [|done]. destruct (list_find _ props) as [[? [? x]]|]; eauto.
Qed.

Lemma consistent_empty : consistent ∅.
Proof. intros k d Hk. by rewrite lookup_empty in Hk. Qed.

(** ** The claims *)

(** C1. Where [window] is absent ([typeof window] is ['undefined']) the
    discovery operation throws the [Error] of lines 52-54 and leaves the world
    exactly as it found it: the listener list, the log of subscriptions and
    dispatches, and the heap (so the registry) are unchanged. This holds for
    every invocation: after any number of attempts there is still no listener
    list, nothing has been logged and the heap is the same. *)
Theorem C1_environment_guard (w : world) :
  window w = None →
  requestEIP6963Providers w = (Throw (Error window_not_available), w) ∧
  ∀ n, window (run (replicate n Discover) w) = None ∧
       log (run (replicate n Discover) w) = log w ∧
       heap (run (replicate n Discover) w) = heap w.
Proof.
  intros Hw. split.
  { unfold requestEIP6963Providers. by rewrite Hw. }
  intros n. by apply run_no_window.
Qed.

(** C2. Two announce events for the same identifier [id], with details [d1]
    then [d2]: both runs of the listener complete normally, the registry holds
    [d1] for [id] after the first and [d2] for [id] after the second, with as
    many entries as after the first; it is the registry before the two events
    with [id] bound to [d2]. The same holds when the two events are
    dispatched on [window] while the listener is subscribed. *)
Theorem C2_reannounce_overwrites (w : world) (m : gmap key value) (id : string)
    (ev1 ev2 : Event) :
  registry w = Some m →
  uuid_of (detail ev1) = Normal (VString id) →
  uuid_of (detail ev2) = Normal (VString id) →
  (∃ w1 w2 m1 m2,
      announceListener ev1 w = (Normal tt, w1) ∧ registry w1 = Some m1 ∧
      announceListener ev2 w1 = (Normal tt, w2) ∧ registry w2 = Some m2 ∧
      m1 !! KString id = Some (detail ev1) ∧
      m2 !! KString id = Some (detail ev2) ∧
      size m2 = size m1 ∧
      m2 = <[KString id := detail ev2]> m) ∧
  (∀ ls, window w = Some ls →
      subscribed eip6963announceProvider ls = true →
      type ev1 = eip6963announceProvider → type ev2 = eip6963announceProvider →
      registry (run [Deliver ev1; Deliver ev2] w) = Some (<[KString id := detail ev2]> m)).
Proof.
  intros Hm H1 H2. split.
  - eexists _, _, _, _. split_and!.
    + rewrite (announceListener_eq ev1 w m Hm), H1. reflexivity.
    + cbn. unfold registry. cbn. apply lookup_insert_eq.
    + erewrite announceListener_eq, H2; [reflexivity|].
      unfold registry. cbn. apply lookup_insert_eq.
    + unfold registry. cbn. apply lookup_insert_eq.
    + unfold upsert. rewrite H1. apply lookup_insert_eq.
    + unfold upsert. rewrite H2. apply lookup_insert_eq.
    + unfold upsert. rewrite H1, H2. cbn [key_of].
      apply map_size_insert_Some. by rewrite lookup_insert_eq.
    + unfold upsert. rewrite H1, H2. cbn [key_of]. apply insert_insert_eq.
  - intros ls Hw Hs Ht1 Ht2. rewrite !run_cons. cbn [run foldl].
    assert (registry (turn (Deliver ev1) w).2 = Some (upsert (detail ev1) m)) as Hm1.
    { eapply turn_Deliver_registry; [done | done | | by rewrite Ht1].
      rewrite Ht1. apply announce_not_request. }
    destruct (evolves_subscribed _ _ _ _ (turn_evolves (Deliver ev1) w) Hw Hs)
      as (ls' & Hw' & Hs').
    erewrite turn_Deliver_registry; [| exact Hw' | exact Hm1 | | by rewrite Ht2].
    + unfold upsert. rewrite H1, H2. cbn [key_of]. by rewrite insert_insert_eq.
    + rewrite Ht2. apply announce_not_request.
Qed.

(** C3. Where [window] exists, every discovery call returns the reference
    bound at line 47 and allocates no map. Whatever turns follow the call, an
    announce event dispatched afterwards whose detail has a readable
    [info.uuid] is found under that uuid in the map read through the returned
    reference. *)
Theorem C3_live_reference (w : world) (ls : list EventListener) (m : gmap key value) :
  window w = Some ls → registry w = Some m →
  ∃ r w1,
    requestEIP6963Providers w = (Normal r, w1) ∧
    r = eip6963Providers ∧
    dom (heap w1) = dom (heap w) ∧
    ∀ acts event uuid,
      type event = eip6963announceProvider →
      uuid_of (detail event) = Normal uuid →
      ∃ m', heap (run (acts ++ [Deliver event]) w1) !! r = Some m' ∧
            m' !! key_of uuid = Some (detail event).
Proof.
  intros Hw Hm.
  destruct (requestEIP6963Providers_leaves w ls m Hw Hm) as (Hw1 & Hh1 & _).
  rewrite (requestEIP6963Providers_eq w ls Hw) in *. cbn [snd] in *.
  eexists _, _. split_and!; [reflexivity | reflexivity | |].
  - rewrite Hh1, dom_insert_L.
    assert (eip6963Providers ∈ dom (heap w)) by (apply elem_of_dom; by eexists).
    set_solver.
  - intros acts event uuid Ht Hu. rewrite run_app.
    set (w1 := (forM_ _ _ _).2) in *.
    assert (registry w1 = Some (foldl (flip upsert) m (announced ls))) as Hm1.
    { unfold registry. rewrite Hh1. apply lookup_insert_eq. }
    pose proof (run_evolves acts w1) as Hev.
    destruct (evolves_registry _ _ _ Hev Hm1) as [ds Hm2].
    destruct (evolves_subscribed _ _ eip6963announceProvider _ Hev Hw1 (subscribed_new w ls))
      as (ls2 & Hw2 & Hs2).
    eexists. split.
    + cbn [run foldl]. eapply turn_Deliver_registry; [exact Hw2 | exact Hm2 | |].
      * rewrite Ht. apply announce_not_request.
      * by rewrite Ht.
    + by apply upsert_lookup.
Qed.

(** C4, as the code has it. Every discovery call in a [window]-bearing world
    subscribes one more arrow function to the announce channel: [n] calls
    append [n] listeners, all of them arrow functions of this module on the
    announce channel, so the channel carries [n] more of them than before. *)
Theorem C4_each_call_subscribes_again (n : nat) (w : world) (ls : list EventListener) :
  window w = Some ls →
  ∃ added,
    window (run (replicate n Discover) w) = Some (ls ++ added) ∧
    length added = n ∧
    Forall (λ l, el_type l = eip6963announceProvider ∧ el_body l = AnnounceHandler) added ∧
    length (handlers eip6963announceProvider (ls ++ added))
    = length (handlers eip6963announceProvider ls) + n.
Proof.
  intros Hw.
  cut (∃ added, window (run (replicate n Discover) w) = Some (ls ++ added) ∧
         length added = n ∧
         Forall (λ l, el_type l = eip6963announceProvider ∧ el_body l = AnnounceHandler) added).
  { intros (added & H1 & H2 & H3). exists added. split_and!; [done..|].
    by rewrite handlers_app, length_app, (handlers_all _ added H3), H2. }
  revert w ls Hw. induction n as [|n IH]; intros w ls Hw.
  { exists []. by rewrite app_nil_r. }
  cbn [replicate]. rewrite run_cons.
  pose proof (requestEIP6963Providers_window w ls Hw) as Hw1.
  rewrite <- (turn_Discover_snd w ls Hw) in Hw1.
  destruct (IH _ _ Hw1) as (added & H1 & H2 & H3).
  exists (new_listener w :: added). split_and!.
  - by rewrite H1, <- app_assoc.
  - cbn. by rewrite H2.
  - by constructor.
Qed.

(** C5. No sequence of turns removes a key from the registry or makes it
    smaller. When announce events with pairwise distinct string identifiers,
    none of them in the registry yet, are dispatched while the listener is
    subscribed, in whatever order, the registry ends up with one more entry
    per event, its keys being the old keys and the announced identifiers. *)
Theorem C5_registry_never_shrinks (w : world) (m : gmap key value) :
  registry w = Some m →
  (∀ acts, ∃ m', registry (run acts w) = Some m' ∧ dom m ⊆ dom m' ∧ (size m ≤ size m')%nat) ∧
  (∀ ls (anns arrival : list (string * value)),
      window w = Some ls →
      subscribed eip6963announceProvider ls = true →
      Forall (λ a, uuid_of a.2 = Normal (VString a.1)) anns →
      NoDup anns.*1 →
      (∀ id, id ∈ anns.*1 → m !! KString id = None) →
      arrival ≡ₚ anns →
      ∃ m', registry (run ((λ d, Deliver (new_CustomEvent eip6963announceProvider d))
                             <$> arrival.*2) w) = Some m' ∧
            dom m' = dom m ∪ list_to_set (KString <$> anns.*1) ∧
            size m' = size m + length anns).
Proof.
  intros Hm. split.
  - intros acts.
    destruct (evolves_registry _ _ _ (run_evolves acts w) Hm) as [ds Hds].
    eexists. split; [exact Hds|].
    pose proof (upserts_dom ds m) as Hsub. split; [done|].
    rewrite <- !size_dom. by apply subseteq_size.
  - intros ls anns arrival Hw Hs Hwf Hnd Hnew Hperm.
    eexists. split; [by apply (run_announces _ w ls m)|].
    assert (dom (foldl (flip upsert) m arrival.*2)
            = dom m ∪ list_to_set (KString <$> anns.*1)) as Hdom.
    { rewrite upserts_dom_strings by (by rewrite Hperm).
      f_equal. apply list_to_set_perm_L. by rewrite Hperm. }
    split; [done|].
    rewrite <- size_dom, Hdom, size_union.
    + rewrite size_dom, size_list_to_set, !length_fmap; [done|].
      apply NoDup_fmap_2; [|done]. by intros ?? [=].
    + intros k Hk1 Hk2. apply elem_of_list_to_set, list_elem_of_fmap in Hk2 as (id & -> & Hid).
      apply elem_of_dom in Hk1 as [? Hk1]. by rewrite Hnew in Hk1.
Qed.

(** C6, as the code has it. In one discovery call the arrow function is
    subscribed before the request event is dispatched. So when a wallet
    answers the request within the dispatch by announcing a detail [d] with
    uuid [uuid], and no later announcement of that dispatch carries the same
    uuid, the call returns the reference of a map that holds [d] under
    [uuid]. (A later announcement under the same uuid replaces it.) *)
Theorem C6_synchronous_announcer (w : world) (ls : list EventListener)
    (m : gmap key value) (earlier later : list value) (d uuid : value) :
  window w = Some ls → registry w = Some m →
  announced ls = earlier ++ d :: later →
  uuid_of d = Normal uuid →
  Forall (λ d', ∀ uuid', uuid_of d' = Normal uuid' → key_of uuid' ≠ key_of uuid) later →
  ∃ r w' m',
    requestEIP6963Providers w = (Normal r, w') ∧
    log w' = log w ++ Subscribed eip6963announceProvider (new_function w)
                   :: Dispatched (new_Event eip6963requestProvider)
                   :: (Dispatched ∘ announce <$> announced ls) ∧
    heap w' !! r = Some m' ∧
    m' !! key_of uuid = Some d.
Proof.
  intros Hw Hm Hann Hu Hlater.
  destruct (requestEIP6963Providers_leaves w ls m Hw Hm) as (_ & Hh & Hlog).
  rewrite (requestEIP6963Providers_eq w ls Hw) in *. cbn [snd] in *.
  eexists _, _, _. split_and!; [reflexivity | exact Hlog | |].
  - rewrite Hh. apply lookup_insert_eq.
  - rewrite Hann, foldl_app. cbn [foldl].
    apply upserts_lookup_last; [done | done |]. by apply upsert_lookup.
Qed.

(** C7, as the code has it. The two tags are the strings
    ["eip6963:announceProvider"] and ["eip6963:requestProvider"], and a
    discovery call uses them as such: it subscribes to the first and
    dispatches a plain event of the second. *)
Theorem C7_event_type_tags (w : world) (ls : list EventListener) :
  window w = Some ls →
  eip6963announceProvider = "eip6963:announceProvider" ∧
  eip6963requestProvider = "eip6963:requestProvider" ∧
  ∃ rest, log (requestEIP6963Providers w).2
          = log w ++ Subscribed "eip6963:announceProvider" (new_function w)
                  :: Dispatched {| type := "eip6963:requestProvider"; detail := VUndefined |}
                  :: rest.
Proof.
  intros Hw. split_and!; [reflexivity | reflexivity |].
  exact (requestEIP6963Providers_log w ls Hw).
Qed.

(** C8, as the code has it. The listener reads [event.detail.info.uuid]
    before it stores anything. If [detail] and [detail.info] are neither
    [undefined] nor [null], the detail is stored as it is under whatever
    [info.uuid] evaluates to, and the listener completes normally. If one of
    them is [undefined] or [null], the listener throws a [TypeError] and
    stores nothing. In both cases the dispatch that invoked the listener, and
    a discovery call, complete normally when [window] exists. *)
Theorem C8_listener_on_any_payload (event : Event) (w : world) (m : gmap key value) :
  registry w = Some m →
  (∀ info, nullish (detail event) = false →
      get_prop (detail event) "info" = Normal info → nullish info = false →
      ∃ uuid, get_prop info "uuid" = Normal uuid ∧
        announceListener event w =
          (Normal tt,
           set_heap (<[eip6963Providers := <[key_of uuid := detail event]> m]> (heap w)) w)) ∧
  (nullish (detail event) = true ∨
   (∃ info, get_prop (detail event) "info" = Normal info ∧ nullish info = true) →
      announceListener event w = (Throw TypeError, w)) ∧
  (∀ ls, window w = Some ls →
      (dispatchEvent event w).1 = Normal true ∧
      (requestEIP6963Providers w).1 = Normal eip6963Providers).
Proof.
  intros Hm.
  assert (set_heap (<[eip6963Providers := m]> (heap w)) w = w) as Hid.
  { rewrite insert_id by done. by destruct w. }
  split_and!.
  - intros info _ Hinfo Hn.
    destruct (get_prop_nullish info "uuid") as [[_ Hn']|[[uuid Hu] _]]; [congruence|].
    exists uuid. split; [done|].
    rewrite (announceListener_eq event w m Hm). unfold upsert, uuid_of.
    by rewrite Hinfo, Hu.
  - intros H. rewrite (announceListener_eq event w m Hm). unfold upsert, uuid_of.
    destruct H as [Hn|(info & Hinfo & Hn)].
    + destruct (get_prop_nullish (detail event) "info") as [[-> _]|[_ Hn']]; [|congruence].
      by rewrite Hid.
    + rewrite Hinfo.
      destruct (get_prop_nullish info "uuid") as [[-> _]|[_ Hn']]; [|congruence].
      by rewrite Hid.
  - intros ls Hw. split; [by eapply dispatchEvent_normal|].
    by rewrite (requestEIP6963Providers_eq w ls Hw).
Qed.

(** C9. A discovery call in a [window]-bearing world dispatches a plain
    event, whose [detail] is [undefined], and the arrow function run on such
    an event throws before it writes. What the registry holds after the call
    is what it held before with the details announced during the dispatch
    upserted in order; when nothing is announced the heap is the one before
    the call, and the returned reference reads the same content. *)
Theorem C9_discovery_does_not_write (w : world) (ls : list EventListener) (m : gmap key value) :
  window w = Some ls → registry w = Some m →
  ∃ r w',
    requestEIP6963Providers w = (Normal r, w') ∧
    log w' = log w ++ Subscribed eip6963announceProvider (new_function w)
                   :: Dispatched (new_Event eip6963requestProvider)
                   :: (Dispatched ∘ announce <$> announced ls) ∧
    detail (new_Event eip6963requestProvider) = VUndefined ∧
    (∀ w0, announceListener (new_Event eip6963requestProvider) w0 = (Throw TypeError, w0)) ∧
    heap w' !! r = Some (foldl (flip upsert) m (announced ls)) ∧
    (announced ls = [] → heap w' = heap w ∧ heap w' !! r = Some m).
Proof.
  intros Hw Hm.
  destruct (requestEIP6963Providers_leaves w ls m Hw Hm) as (_ & Hh & Hlog).
  rewrite (requestEIP6963Providers_eq w ls Hw) in *. cbn [snd] in *.
  eexists _, _. split_and!; [reflexivity | exact Hlog | reflexivity | done | |].
  - rewrite Hh. apply lookup_insert_eq.
  - intros Hnone. rewrite Hnone in Hh. cbn in Hh.
    rewrite insert_id in Hh by done. by rewrite Hh.
Qed.

(** C10. Every entry the listener writes has as key the value its detail's
    [info.uuid] evaluates to: a registry in which every key is the uuid of the
    detail stored under it stays so when the listener runs on any event, and
    through any sequence of turns. *)
Theorem C10_keys_are_uuids (w : world) (m : gmap key value) :
  registry w = Some m → consistent m →
  (∀ event, ∃ m', registry (announceListener event w).2 = Some m' ∧ consistent m' ∧
      ∀ uuid, uuid_of (detail event) = Normal uuid → m' !! key_of uuid = Some (detail event)) ∧
  (∀ acts, ∃ m', registry (run acts w) = Some m' ∧ consistent m').
Proof.
  intros Hm Hc. split.
  - intros event. rewrite (announceListener_eq event w m Hm). cbn [snd].
    eexists. split_and!.
    + unfold registry. cbn. apply lookup_insert_eq.
    + by apply upsert_consistent.
    + intros uuid Hu. by apply upsert_lookup.
  - intros acts.
    destruct (evolves_registry _ _ _ (run_evolves acts w) Hm) as [ds Hds].
    eexists. split; [exact Hds|]. by apply upserts_consistent.
Qed.

(** ** Further properties of the module *)

(** X1. The module writes to its own map only: through any sequence of turns
    no map is allocated or dropped, and every map at another reference keeps
    its content. *)
Theorem X1_other_maps_untouched (w : world) (m : gmap key value) (acts : list action) :
  registry w = Some m →
  dom (heap (run acts w)) = dom (heap w) ∧
  ∀ l, l ≠ eip6963Providers → heap (run acts w) !! l = heap w !! l.
Proof.
  intros Hm. destruct (run_evolves acts w) as [_ H].
  destruct (H m Hm) as [ds ->]. split.
  - rewrite dom_insert_L.
    assert (eip6963Providers ∈ dom (heap w)) by (apply elem_of_dom; by eexists).
    set_solver.
  - intros l Hl. by rewrite lookup_insert_ne.
Qed.

(** X2. The listener exists only once a discovery call has subscribed it. An
    event that is not a request event, dispatched while no arrow function of
    the module listens on its type (an announce event before the first
    discovery call, for one), changes nothing in the heap; and when no wallet
    answers requests, a discovery call made afterwards does not bring the
    missed event back. *)
Theorem X2_unheard_events_are_lost (w : world) (ls : list EventListener)
    (m : gmap key value) (event : Event) :
  window w = Some ls → registry w = Some m →
  type event ≠ eip6963requestProvider →
  subscribed (type event) ls = false →
  window (run [Deliver event] w) = Some ls ∧
  heap (run [Deliver event] w) = heap w ∧
  (announced ls = [] → registry (run [Deliver event; Discover] w) = Some m).
Proof.
  intros Hw Hm Ht Hs.
  assert (window (run [Deliver event] w) = Some ls ∧ heap (run [Deliver event] w) = heap w)
    as [Hw1 Hh1].
  { cbn [run foldl]. rewrite (turn_Deliver_snd event w ls Hw).
    destruct (dispatchEvent_quiet event w ls m Hw Hm Ht) as (Hw1 & Hh1 & _).
    rewrite Hs in Hh1. split; [congruence|]. by rewrite Hh1, insert_id. }
  split_and!; [done | done |].
  intros Hnone. change [Deliver event; Discover] with ([Deliver event] ++ [Discover]).
  rewrite run_app. set (w1 := run [Deliver event] w) in *.
  assert (registry w1 = Some m) as Hm1 by (unfold registry; by rewrite Hh1).
  cbn [run foldl]. rewrite (turn_Discover_snd w1 ls Hw1).
  destruct (requestEIP6963Providers_leaves w1 ls m Hw1 Hm1) as (_ & Hh & _).
  unfold registry. rewrite Hh, Hnone. apply lookup_insert_eq.
Qed.

(** X3. Once the arrow function is subscribed, a request event dispatched by
    anyone else on the page fills the registry as a discovery call would: the
    details the wallets announce in answer are upserted in order, and no
    listener is added. *)
Theorem X3_foreign_request_populates (w : world) (ls : list EventListener)
    (m : gmap key value) :
  window w = Some ls → registry w = Some m →
  subscribed eip6963announceProvider ls = true →
  window (run [Deliver (new_Event eip6963requestProvider)] w) = Some ls ∧
  registry (run [Deliver (new_Event eip6963requestProvider)] w)
  = Some (foldl (flip upsert) m (announced ls)).
Proof.
  intros Hw Hm Hs. cbn [run foldl].
  rewrite (turn_Deliver_snd _ w ls Hw), dispatchEvent_snd.
  unfold fire. rewrite Hw.
  pose proof (forM_invoke_request ls (new_Event eip6963requestProvider)
                (filter (λ l, el_type l = eip6963requestProvider) ls) eq_refl
                (record (Dispatched (new_Event eip6963requestProvider)) w) m Hw Hm) as H.
  rewrite request_effect_announced in H by done.
  split; [by eapply leaves_window | by eapply leaves_registry].
Qed.

Lemma upserts_lookup ds m k :
  foldl (flip upsert) m ds !! k
  = match last_announced k ds with Some d => Some d | None => m !! k end.
Proof.
  induction ds as [|d ds IH] using rev_ind; [done|].
  rewrite foldl_app. cbn [foldl]. unfold last_announced in *. rewrite filter_app.
  unfold flip at 1.
  destruct (decide (announced_key d = Some k)) as [Hk|Hk].
  - rewrite filter_cons_True, filter_nil, last_snoc by done.
    unfold announced_key in Hk. unfold upsert.
    destruct (uuid_of d) as [uuid|]; [|done]. injection Hk as <-. apply lookup_insert_eq.
  - rewrite filter_cons_False, filter_nil, app_nil_r, <- IH by done.
    unfold announced_key in Hk. unfold upsert.
    destruct (uuid_of d) as [uuid|]; [|done]. rewrite lookup_insert_ne; congruence.
Qed.

Lemma upserts_twice ds m :
  foldl (flip upsert) (foldl (flip upsert) m ds) ds = foldl (flip upsert) m ds.
Proof.
  apply map_eq. intros k. rewrite !upserts_lookup.
  by destruct (last_announced k ds).
Qed.

Lemma announced_new w ls : announced (ls ++ [new_listener w]) = announced ls.
Proof. unfold announced. by rewrite filter_request_new. Qed.

(** X4. Last write wins within one discovery call: in the map the call
    leaves, a key holds the last detail announced under it during the
    dispatch, and keeps its old content (or absence) when no announcement
    with a readable uuid named it. *)
Theorem X4_last_announcement_wins (w : world) (ls : list EventListener)
    (m : gmap key value) :
  window w = Some ls → registry w = Some m →
  ∃ m', registry (requestEIP6963Providers w).2 = Some m' ∧
    ∀ k, m' !! k = match last_announced k (announced ls) with
                   | Some d => Some d
                   | None => m !! k
                   end.
Proof.
  intros Hw Hm.
  destruct (requestEIP6963Providers_leaves w ls m Hw Hm) as (_ & Hh & _).
  eexists. split.
  - unfold registry. rewrite Hh. apply lookup_insert_eq.
  - intros k. apply upserts_lookup.
Qed.

Lemma run_discoveries n :
  ∀ w ls m, window w = Some ls → registry w = Some m →
    registry (run (replicate (S n) Discover) w)
    = Some (foldl (flip upsert) m (announced ls)).
Proof.
  induction n as [|n IH]; intros w ls m Hw Hm.
  - cbn [replicate run foldl]. rewrite (turn_Discover_snd w ls Hw).
    destruct (requestEIP6963Providers_leaves w ls m Hw Hm) as (_ & Hh & _).
    unfold registry. rewrite Hh. apply lookup_insert_eq.
  - change (replicate (S (S n)) Discover) with (Discover :: replicate (S n) Discover).
    rewrite run_cons, (turn_Discover_snd w ls Hw).
    destruct (requestEIP6963Providers_leaves w ls m Hw Hm) as (Hw1 & Hh & _).
    rewrite (IH _ (ls ++ [new_listener w]) (foldl (flip upsert) m (announced ls)) Hw1).
    + by rewrite announced_new, upserts_twice.
    + unfold registry. rewrite Hh. apply lookup_insert_eq.
Qed.

(** X5. Calling discovery again does not change what the registry holds:
    with the same wallets answering, any number of successive discovery calls
    leaves the content a single call leaves, namely the announced details
    upserted in order into the content before the first call. *)
Theorem X5_repeated_discovery_same_content (n : nat) (w : world)
    (ls : list EventListener) (m : gmap key value) :
  window w = Some ls → registry w = Some m →
  registry (run (replicate (S n) Discover) w) = registry (run [Discover] w) ∧
  registry (run [Discover] w) = Some (foldl (flip upsert) m (announced ls)).
Proof.
  intros Hw Hm.
  pose proof (run_discoveries 0 w ls m Hw Hm) as H1.
  pose proof (run_discoveries n w ls m Hw Hm) as Hn.
  split; [by rewrite Hn, <- H1 | exact H1].
Qed.

Lemma discoveries_cons a acts :
  discoveries (a :: acts) = (if is_discover a then 1 else 0) + discoveries acts.
Proof.
  unfold discoveries. destruct a; cbn [is_discover].
  - by rewrite filter_cons_True.
  - by rewrite filter_cons_False.
Qed.

(** X6. The module never unsubscribes. After any sequence of turns the
    listener list is the one before, followed by one arrow function on the
    announce channel per discovery call made; turns that only deliver events
    leave it as it is. *)
Theorem X6_listeners_accumulate (acts : list action) (w : world) (ls : list EventListener) :
  window w = Some ls →
  ∃ added,
    window (run acts w) = Some (ls ++ added) ∧
    length added = discoveries acts ∧
    Forall (λ l, el_type l = eip6963announceProvider ∧ el_body l = AnnounceHandler) added.
Proof.
  revert w ls. induction acts as [|a acts IH]; intros w ls Hw.
  { exists []. by rewrite app_nil_r. }
  rewrite run_cons, discoveries_cons. destruct a as [|event]; cbn [is_discover].
  - pose proof (requestEIP6963Providers_window w ls Hw) as Hw1.
    rewrite <- (turn_Discover_snd w ls Hw) in Hw1.
    destruct (IH _ _ Hw1) as (added & H1 & H2 & H3).
    exists (new_listener w :: added). split_and!.
    + by rewrite H1, <- app_assoc.
    + cbn. by rewrite H2.
    + by constructor.
  - assert (window (turn (Deliver event) w).2 = Some ls) as Hw1.
    { by rewrite (turn_Deliver_snd event w ls Hw), dispatchEvent_window. }
    destruct (IH _ _ Hw1) as (added & H1 & H2 & H3). by exists added.
Qed.

Lemma uuid_of_throw d e : uuid_of d = Throw e → e = TypeError.
Proof.
  unfold uuid_of.
  destruct (get_prop_nullish d "info") as [[-> _]|[[info ->] _]]; [congruence|].
  destruct (get_prop_nullish info "uuid") as [[-> _]|[[uuid ->] _]]; congruence.
Qed.

Lemma invoke_handler_reported deliver event l w m :
  registry w = Some m → is_handler l = true →
  reported (invoke deliver event l w).2
  = reported w ++ match uuid_of (detail event) with Normal _ => [] | Throw e => [e] end.
Proof.
  intros Hm Hl. unfold invoke, is_handler in *.
  destruct (el_body l); [|done]. cbn [call]. unfold report_exception.
  rewrite (announceListener_eq _ _ _ Hm).
  destruct (uuid_of (detail event)); cbn; [by rewrite app_nil_r | done].
Qed.

Lemma forM_invoke_quiet_reported deliver event fs :
  type event ≠ eip6963requestProvider →
  ∀ w m, registry w = Some m →
    reported (forM_ (invoke deliver event) fs w).2
    = reported w ++ match uuid_of (detail event) with
                    | Normal _ => []
                    | Throw e => replicate (length (filter (λ l, is_handler l = true) fs)) e
                    end.
Proof.
  intros Ht. induction fs as [|l fs IH]; intros w m Hm.
  { cbn. destruct (uuid_of (detail event)); by rewrite app_nil_r. }
  rewrite forM__cons by apply invoke_normal.
  destruct (is_handler l) eqn:Hl.
  - pose proof (invoke_handler deliver event l w m Hm Hl) as H1.
    rewrite (IH _ _ (leaves_registry _ _ _ _ H1)),
      (invoke_handler_reported deliver event l w m Hm Hl), filter_cons_True by done.
    destruct (uuid_of (detail event)); cbn; by rewrite <- app_assoc.
  - rewrite invoke_wallet_quiet, filter_cons_False by (done || by rewrite Hl).
    exact (IH w m Hm).
Qed.

Lemma handlers_filter t ls :
  filter (λ l, is_handler l = true) (filter (λ l, el_type l = t) ls) = handlers t ls.
Proof.
  unfold handlers. induction ls as [|l ls IH]; [done|].
  destruct (decide (el_type l = t)) as [Ht|Ht], (is_handler l) eqn:Hl.
  - rewrite (filter_cons_True (λ l, el_type l = t)), !filter_cons_True, IH by done. done.
  - rewrite (filter_cons_True (λ l, el_type l = t)), !filter_cons_False, IH
      by (done || rewrite Hl; naive_solver). done.
  - rewrite !filter_cons_False, IH by naive_solver. done.
  - rewrite !filter_cons_False, IH by naive_solver. done.
Qed.

(** X7. What an announcement costs in reported exceptions. Dispatching an
    event (not a request event) whose detail has a readable [info.uuid]
    reports nothing. When the uuid cannot be read, every arrow function of the
    module subscribed to the event's type throws its own [TypeError]: as many
    are reported as discovery calls have stacked listeners, and the heap stays
    as it was. *)
Theorem X7_one_exception_per_listener (w : world) (ls : list EventListener)
    (m : gmap key value) (event : Event) :
  window w = Some ls → registry w = Some m →
  type event ≠ eip6963requestProvider →
  (∀ uuid, uuid_of (detail event) = Normal uuid →
      reported (run [Deliver event] w) = reported w) ∧
  (∀ e, uuid_of (detail event) = Throw e →
      reported (run [Deliver event] w)
      = reported w ++ replicate (length (handlers (type event) ls)) TypeError ∧
      heap (run [Deliver event] w) = heap w).
Proof.
  intros Hw Hm Ht. cbn [run foldl].
  rewrite (turn_Deliver_snd event w ls Hw), dispatchEvent_snd.
  pose proof (fire_quiet dispatch_nested event w ls m Hw Hm Ht) as (_ & Hh & _).
  unfold fire in *. rewrite Hw in *.
  pose proof (forM_invoke_quiet_reported dispatch_nested event
                (filter (λ l, el_type l = type event) ls) Ht
                (record (Dispatched event) w) m Hm) as Hr.
  rewrite handlers_filter in Hr. cbn [reported record] in Hr.
  split.
  - intros uuid Hu. rewrite Hu in Hr. by rewrite Hr, app_nil_r.
  - intros e He. rewrite (uuid_of_throw _ _ He) in He. rewrite He in Hr. split; [done|].
    rewrite Hh. unfold upsert. rewrite He.
    destruct (subscribed _ _); by rewrite insert_id.
Qed.

Lemma upserts_size_strings (anns : list (string * value)) m :
  Forall (λ a, uuid_of a.2 = Normal (VString a.1)) anns →
  NoDup anns.*1 →
  (∀ id, id ∈ anns.*1 → m !! KString id = None) →
  size (foldl (flip upsert) m anns.*2) = size m + length anns.
Proof.
  intros Hwf Hnd Hnew.
  rewrite <- size_dom, upserts_dom_strings by done. rewrite size_union.
  - rewrite size_dom, size_list_to_set, !length_fmap; [done|].
    apply NoDup_fmap_2; [|done]. by intros ?? [=].
  - intros k Hk1 Hk2. apply elem_of_list_to_set, list_elem_of_fmap in Hk2 as (id & -> & Hid).
    apply elem_of_dom in Hk1 as [? Hk1]. by rewrite Hnew in Hk1.
Qed.

(** X8. What one discovery call collects. When the wallets on the page answer
    the request with details carrying string uuids, the map the call leaves
    has as keys the keys it had and those uuids; if the uuids are pairwise
    distinct and new, it has one more entry per answer. *)
Theorem X8_discovery_collects_answers (w : world) (ls : list EventListener)
    (m : gmap key value) (anns : list (string * value)) :
  window w = Some ls → registry w = Some m →
  announced ls = anns.*2 →
  Forall (λ a, uuid_of a.2 = Normal (VString a.1)) anns →
  ∃ m', registry (requestEIP6963Providers w).2 = Some m' ∧
    dom m' = dom m ∪ list_to_set (KString <$> anns.*1) ∧
    (NoDup anns.*1 → (∀ id, id ∈ anns.*1 → m !! KString id = None) →
       size m' = size m + length anns).
Proof.
  intros Hw Hm Hann Hwf.
  destruct (requestEIP6963Providers_leaves w ls m Hw Hm) as (_ & Hh & _).
  eexists. split_and!.
  - unfold registry. rewrite Hh. apply lookup_insert_eq.
  - rewrite Hann. by apply upserts_dom_strings.
  - intros Hnd Hnew. rewrite Hann. by apply upserts_size_strings.
Qed.

Lemma upsert_commute d1 d2 m :
  (∀ k, announced_key d1 = Some k → announced_key d2 ≠ Some k) →
  upsert d1 (upsert d2 m) = upsert d2 (upsert d1 m).
Proof.
  intros Hk. unfold upsert, announced_key in *.
  destruct (uuid_of d1) as [u1|], (uuid_of d2) as [u2|]; try done.
  apply insert_insert_ne. intros Heq. apply (Hk _ eq_refl). by rewrite Heq.
Qed.

Lemma upserts_perm ds ds' :
  ds ≡ₚ ds' → NoDup (omap announced_key ds) →
  ∀ m, foldl (flip upsert) m ds = foldl (flip upsert) m ds'.
Proof.
  induction 1 as [|d ds ds' Hp IH|d1 d2 ds|ds1 ds2 ds3 Hp1 IH1 Hp2 IH2]; intros Hnd m.
  - done.
  - cbn [foldl]. apply IH. cbn in Hnd.
    destruct (announced_key d); [by apply NoDup_cons in Hnd as [_ ?]|done].
  - cbn [foldl]. unfold flip at 2 3 5 6. f_equal. apply upsert_commute.
    intros k Hk1 Hk2. cbn in Hnd. rewrite Hk1, Hk2 in Hnd.
    apply NoDup_cons in Hnd as [Hnd _]. apply Hnd. by left.
  - rewrite IH1 by done. apply IH2. by rewrite <- Hp1.
Qed.

(** X9. What [get], [has] and [size] return after a discovery call does not
    depend on the order in which the wallets answer, as long as uuids do not
    collide. Take two pages whose wallets announce the same details in
    different orders, every readable uuid occurring once: after discovery
    the two maps hold the same detail (or none) under every key, and have
    the same size. Nothing is said of the order in which the maps iterate
    their entries, which follows the order of arrival. *)
Theorem X9_lookups_independent_of_answer_order (w w' : world)
    (ls ls' : list EventListener) (m : gmap key value) :
  window w = Some ls → window w' = Some ls' →
  registry w = Some m → registry w' = Some m →
  announced ls ≡ₚ announced ls' →
  NoDup (omap announced_key (announced ls)) →
  ∃ m1 m2,
    registry (requestEIP6963Providers w).2 = Some m1 ∧
    registry (requestEIP6963Providers w').2 = Some m2 ∧
    (∀ k, m1 !! k = m2 !! k) ∧
    size m1 = size m2.
Proof.
  intros Hw Hw' Hm Hm' Hp Hnd.
  destruct (requestEIP6963Providers_leaves w ls m Hw Hm) as (_ & Hh & _).
  destruct (requestEIP6963Providers_leaves w' ls' m Hw' Hm') as (_ & Hh' & _).
  eexists _, _. split_and!.
  - unfold registry. rewrite Hh. apply lookup_insert_eq.
  - unfold registry. rewrite Hh'. apply lookup_insert_eq.
  - intros k. by rewrite (upserts_perm _ _ Hp Hnd).
  - by rewrite (upserts_perm _ _ Hp Hnd).
Qed.

End web3_eip6963.

(** ** The claims on sample worlds *)

(** Evaluating the module (line 47) in any world yields a reference whose map
    is empty: the worlds the claims speak of exist. *)
Lemma module_evaluation (w : world) :
  ∃ l w', new_Map w = (Normal l, w') ∧ heap w !! l = None ∧ registry l w' = Some ∅.
Proof.
  eexists _, _. split_and!; [reflexivity | |].
  - apply not_elem_of_dom, is_fresh.
  - unfold registry. cbn. apply lookup_insert_eq.
Qed.

(** C1 on a run time without [window]. *)
Lemma C1_environment_guard_witness :
  window no_window = None ∧
  requestEIP6963Providers 0 no_window = (Throw (Error window_not_available), no_window).
Proof.
  split; [reflexivity|].
  destruct (C1_environment_guard 0 no_window eq_refl) as [H _]. exact H.
Defined.

(** C2 on a page where the listener is subscribed: a wallet announces itself,
    then again under another name; the second detail is the one kept. *)
Lemma C2_reannounce_overwrites_witness :
  registry 0 (browser [page_listener]) = Some ∅ ∧
  uuid_of (detail (announce wallet1_detail)) = Normal (VString "abc") ∧
  uuid_of (detail (announce wallet1_renamed)) = Normal (VString "abc") ∧
  registry 0 (run 0 [Deliver (announce wallet1_detail); Deliver (announce wallet1_renamed)]
                (browser [page_listener]))
  = Some (<[KString "abc" := wallet1_renamed]> ∅).
Proof.
  split_and!; [reflexivity | reflexivity | reflexivity |].
  destruct (C2_reannounce_overwrites 0 (browser [page_listener]) ∅ "abc"
              (announce wallet1_detail) (announce wallet1_renamed)
              eq_refl eq_refl eq_refl) as [_ H].
  exact (H [page_listener] eq_refl eq_refl eq_refl eq_refl).
Defined.

(** C3: a second wallet announcing itself after the call is read through the
    reference the call returned. *)
Lemma C3_live_reference_witness :
  window (browser [wallet1]) = Some [wallet1] ∧
  registry 0 (browser [wallet1]) = Some ∅ ∧
  ∃ r w1,
    requestEIP6963Providers 0 (browser [wallet1]) = (Normal r, w1) ∧
    ∃ m', heap (run 0 [Deliver (announce wallet2_detail)] w1) !! r = Some m' ∧
          m' !! KString "b" = Some wallet2_detail.
Proof.
  split_and!; [reflexivity | reflexivity |].
  destruct (C3_live_reference 0 (browser [wallet1]) [wallet1] ∅ eq_refl eq_refl)
    as (r & w1 & Hcall & _ & _ & Hlive).
  exists r, w1. split; [exact Hcall|].
  exact (Hlive [] (announce wallet2_detail) (VString "b") eq_refl eq_refl).
Defined.

(** C4 does not hold as written: on a page without listeners, one discovery call
    leaves one listener on the announce channel and a second call leaves two,
    not one. *)
Lemma C4_second_call_subscribes_again :
  window (run 0 [Discover] (browser []))
  = Some [ {| el_type := "eip6963:announceProvider"; el_fn := 0; el_body := AnnounceHandler |} ] ∧
  window (run 0 [Discover; Discover] (browser []))
  = Some [ {| el_type := "eip6963:announceProvider"; el_fn := 0; el_body := AnnounceHandler |};
           {| el_type := "eip6963:announceProvider"; el_fn := 1; el_body := AnnounceHandler |} ] ∧
  (length ∘ handlers eip6963announceProvider) <$> window (run 0 [Discover; Discover] (browser []))
  ≠ Some 1.
Proof. split_and!; [reflexivity | reflexivity | discriminate]. Qed.

(** C4, as the code has it, for three calls on a page with one wallet. *)
Lemma C4_each_call_subscribes_again_witness :
  window (browser [wallet1]) = Some [wallet1] ∧
  ∃ added,
    window (run 0 (replicate 3 Discover) (browser [wallet1])) = Some ([wallet1] ++ added) ∧
    length added = 3.
Proof.
  split; [reflexivity|].
  destruct (C4_each_call_subscribes_again 0 3 (browser [wallet1]) [wallet1] eq_refl)
    as (added & Hw & Hn & _).
  by exists added.
Defined.

(** C5: two wallets with distinct uuids, arriving in the other order, give a
    registry of size two. *)
Lemma C5_registry_never_shrinks_witness :
  registry 0 (browser [page_listener]) = Some ∅ ∧
  ∃ m', registry 0 (run 0 [Deliver (announce wallet2_detail); Deliver (announce wallet1_detail)]
                      (browser [page_listener])) = Some m' ∧
        size m' = 2.
Proof.
  split; [reflexivity|].
  destruct (C5_registry_never_shrinks 0 (browser [page_listener]) ∅ eq_refl) as [_ H].
  destruct (H [page_listener]
              [("abc", wallet1_detail); ("b", wallet2_detail)]
              [("b", wallet2_detail); ("abc", wallet1_detail)]) as (m' & Hm' & _ & Hsize).
  - reflexivity.
  - reflexivity.
  - repeat constructor.
  - cbn. apply NoDup_cons. split; [|apply NoDup_singleton].
    intros [=]%list_elem_of_singleton.
  - intros. apply lookup_empty.
  - apply Permutation_swap.
  - by exists m'.
Defined.

(** C6 does not hold as written: two extensions answer the request under the
    same uuid. The first answers within the dispatch with [wallet1_detail],
    as the log shows, yet the map the call returns holds the second one's
    detail under that uuid. *)
Lemma C6_later_answer_replaces_earlier :
  announced [wallet1; wallet1_again] = [wallet1_detail; wallet1_renamed] ∧
  uuid_of wallet1_detail = Normal (VString "abc") ∧
  (requestEIP6963Providers 0 (browser [wallet1; wallet1_again])).1 = Normal 0 ∧
  log (requestEIP6963Providers 0 (browser [wallet1; wallet1_again])).2
  = [Subscribed "eip6963:announceProvider" 5;
     Dispatched (new_Event "eip6963:requestProvider");
     Dispatched (announce wallet1_detail);
     Dispatched (announce wallet1_renamed)] ∧
  heap (requestEIP6963Providers 0 (browser [wallet1; wallet1_again])).2 !! 0
  = Some (<[KString "abc" := wallet1_renamed]> ∅) ∧
  (<[KString "abc" := wallet1_renamed]> ∅ : gmap key value) !! KString "abc"
  ≠ Some wallet1_detail.
Proof. split_and!; [reflexivity.. | discriminate]. Qed.

(** C6, as the code has it: a wallet that answers the request within the
    dispatch, with nobody answering under its uuid after it, is in the map
    the call returns. *)
Lemma C6_synchronous_announcer_witness :
  window (browser [wallet1]) = Some [wallet1] ∧
  registry 0 (browser [wallet1]) = Some ∅ ∧
  announced [wallet1] = [] ++ wallet1_detail :: [] ∧
  uuid_of wallet1_detail = Normal (VString "abc") ∧
  ∃ r w' m',
    requestEIP6963Providers 0 (browser [wallet1]) = (Normal r, w') ∧
    heap w' !! r = Some m' ∧
    m' !! KString "abc" = Some wallet1_detail.
Proof.
  split_and!; [reflexivity | reflexivity | reflexivity | reflexivity |].
  destruct (C6_synchronous_announcer 0 (browser [wallet1]) [wallet1] ∅ [] []
              wallet1_detail (VString "abc") eq_refl eq_refl eq_refl eq_refl (Forall_nil_2 _))
    as (r & w' & m' & Hcall & _ & Hm' & Hentry).
  by exists r, w', m'.
Defined.

(** C7 does not hold as written: the tags are not the bare names. *)
Lemma C7_tags_are_not_the_bare_names :
  ¬ (eip6963announceProvider = "announceProvider" ∧
     eip6963requestProvider = "requestProvider").
Proof. intros [H _]. discriminate H. Qed.

(** C7, as the code has it, on a page without listeners. *)
Lemma C7_event_type_tags_witness :
  window (browser []) = Some [] ∧
  ∃ rest, log (requestEIP6963Providers 0 (browser [])).2
          = log (browser []) ++
            Subscribed "eip6963:announceProvider" (new_function (browser []))
            :: Dispatched {| type := "eip6963:requestProvider"; detail := VUndefined |}
            :: rest.
Proof.
  split; [reflexivity|].
  destruct (C7_event_type_tags 0 (browser []) [] eq_refl) as (_ & _ & H). exact H.
Defined.

(** C8 does not hold as written: on an announce event whose detail has no [info] the
    listener throws a [TypeError] and stores nothing; dispatched on [window],
    the event leaves the registry empty and the exception reported. *)
Lemma C8_payload_without_info_throws :
  announceListener 0 (announce detail_without_info) (browser [page_listener])
  = (Throw TypeError, browser [page_listener]) ∧
  registry 0 (run 0 [Deliver (announce detail_without_info)] (browser [page_listener]))
  = Some ∅ ∧
  reported (run 0 [Deliver (announce detail_without_info)] (browser [page_listener]))
  = [TypeError].
Proof. split_and!; reflexivity. Qed.

(** C8, as the code has it: a detail whose [info] lacks [uuid] is stored under the key
    [undefined]. *)
Lemma C8_listener_on_any_payload_witness :
  registry 0 (browser [page_listener]) = Some ∅ ∧
  announceListener 0 (announce anonymous_detail) (browser [page_listener])
  = (Normal tt,
     set_heap (<[0 := <[KUndefined := anonymous_detail]> ∅]> (heap (browser [page_listener])))
              (browser [page_listener])).
Proof.
  split; [reflexivity|].
  destruct (C8_listener_on_any_payload 0 (announce anonymous_detail)
              (browser [page_listener]) ∅ eq_refl) as (H & _ & _).
  destruct (H (VObject 9 [("name", VString "Nameless")]) eq_refl eq_refl eq_refl)
    as (uuid & Hu & Hrun).
  injection Hu as <-. exact Hrun.
Defined.

(** C9: with no announcer on the page, discovery on a fresh registry returns
    the empty map and leaves the heap as it was. *)
Lemma C9_discovery_does_not_write_witness :
  window (browser []) = Some [] ∧
  registry 0 (browser []) = Some ∅ ∧
  ∃ r w',
    requestEIP6963Providers 0 (browser []) = (Normal r, w') ∧
    heap w' = heap (browser []) ∧
    heap w' !! r = Some ∅.
Proof.
  split_and!; [reflexivity | reflexivity |].
  destruct (C9_discovery_does_not_write 0 (browser []) [] ∅ eq_refl eq_refl)
    as (r & w' & Hcall & _ & _ & _ & _ & Hquiet).
  destruct (Hquiet eq_refl) as [Hheap Hm].
  by exists r, w'.
Defined.

(** C10 from the empty registry, through one discovery call answered by a
    wallet. *)
Lemma C10_keys_are_uuids_witness :
  registry 0 (browser [wallet1]) = Some ∅ ∧
  consistent ∅ ∧
  ∃ m', registry 0 (run 0 [Discover] (browser [wallet1])) = Some m' ∧ consistent m'.
Proof.
  split_and!; [reflexivity | apply consistent_empty |].
  destruct (C10_keys_are_uuids 0 (browser [wallet1]) ∅ eq_refl consistent_empty) as [_ H].
  exact (H [Discover]).
Defined.


(** ** The further properties on sample worlds *)

(** X1: a discovery call answered by a wallet leaves the page's own map as it
    was. *)
Lemma X1_other_maps_untouched_witness :
  registry 0 page_with_own_map = Some ∅ ∧
  heap (run 0 [Discover] page_with_own_map) !! 1 = heap page_with_own_map !! 1.
Proof.
  split; [reflexivity|].
  destruct (X1_other_maps_untouched 0 page_with_own_map ∅ [Discover] eq_refl) as [_ H].
  apply H. discriminate.
Defined.

(** X2: a wallet announcing itself on a page where discovery was never called
    is not recorded. *)
Lemma X2_unheard_events_are_lost_witness :
  window (browser [wallet1]) = Some [wallet1] ∧
  registry 0 (browser [wallet1]) = Some ∅ ∧
  type (announce wallet2_detail) ≠ eip6963requestProvider ∧
  subscribed (type (announce wallet2_detail)) [wallet1] = false ∧
  heap (run 0 [Deliver (announce wallet2_detail)] (browser [wallet1])) = heap (browser [wallet1]).
Proof.
  split_and!; [reflexivity | reflexivity | discriminate | reflexivity |].
  destruct (X2_unheard_events_are_lost 0 (browser [wallet1]) [wallet1] ∅
              (announce wallet2_detail) eq_refl eq_refl) as (_ & H & _);
    [discriminate | reflexivity | exact H].
Defined.

(** X3: with the listener subscribed, somebody else's request event records
    the wallet that answers it. *)
Lemma X3_foreign_request_populates_witness :
  window (browser [wallet1; page_listener]) = Some [wallet1; page_listener] ∧
  registry 0 (browser [wallet1; page_listener]) = Some ∅ ∧
  subscribed eip6963announceProvider [wallet1; page_listener] = true ∧
  registry 0 (run 0 [Deliver (new_Event eip6963requestProvider)]
                (browser [wallet1; page_listener]))
  = Some (foldl (flip upsert) ∅ (announced [wallet1; page_listener])).
Proof.
  split_and!; [reflexivity | reflexivity | reflexivity |].
  destruct (X3_foreign_request_populates 0 (browser [wallet1; page_listener])
              [wallet1; page_listener] ∅ eq_refl eq_refl eq_refl) as [_ H].
  exact H.
Defined.

(** X4: one wallet answers: its uuid holds its detail, a uuid nobody
    announced stays absent. *)
Lemma X4_last_announcement_wins_witness :
  window (browser [wallet1]) = Some [wallet1] ∧
  registry 0 (browser [wallet1]) = Some ∅ ∧
  ∃ m', registry 0 (requestEIP6963Providers 0 (browser [wallet1])).2 = Some m' ∧
        m' !! KString "abc" = Some wallet1_detail ∧
        m' !! KString "b" = None.
Proof.
  split_and!; [reflexivity | reflexivity |].
  destruct (X4_last_announcement_wins 0 (browser [wallet1]) [wallet1] ∅ eq_refl eq_refl)
    as (m' & Hm' & Hk).
  exists m'. split_and!; [exact Hm' | exact (Hk (KString "abc")) | exact (Hk (KString "b"))].
Defined.

(** X5: three discovery calls in a row on a page with one wallet. *)
Lemma X5_repeated_discovery_same_content_witness :
  window (browser [wallet1]) = Some [wallet1] ∧
  registry 0 (browser [wallet1]) = Some ∅ ∧
  registry 0 (run 0 (replicate 3 Discover) (browser [wallet1]))
  = registry 0 (run 0 [Discover] (browser [wallet1])).
Proof.
  split_and!; [reflexivity | reflexivity |].
  destruct (X5_repeated_discovery_same_content 0 2 (browser [wallet1]) [wallet1] ∅
              eq_refl eq_refl) as [H _].
  exact H.
Defined.

(** X6: two discovery calls with a delivery in between add two listeners. *)
Lemma X6_listeners_accumulate_witness :
  window (browser [wallet1]) = Some [wallet1] ∧
  ∃ added,
    window (run 0 [Discover; Deliver (announce wallet2_detail); Discover] (browser [wallet1]))
    = Some ([wallet1] ++ added) ∧
    length added = 2.
Proof.
  split; [reflexivity|].
  destruct (X6_listeners_accumulate 0 [Discover; Deliver (announce wallet2_detail); Discover]
              (browser [wallet1]) [wallet1] eq_refl) as (added & Hw & Hn & _).
  exists added. split; [exact Hw | exact Hn].
Defined.

(** X7: with two arrow functions subscribed, one announcement without [info]
    is reported twice. *)
Lemma X7_one_exception_per_listener_witness :
  window (browser [page_listener; page_listener2]) = Some [page_listener; page_listener2] ∧
  registry 0 (browser [page_listener; page_listener2]) = Some ∅ ∧
  type (announce detail_without_info) ≠ eip6963requestProvider ∧
  uuid_of (detail (announce detail_without_info)) = Throw TypeError ∧
  reported (run 0 [Deliver (announce detail_without_info)]
              (browser [page_listener; page_listener2]))
  = [TypeError; TypeError].
Proof.
  split_and!; [reflexivity | reflexivity | discriminate | reflexivity |].
  destruct (X7_one_exception_per_listener 0 (browser [page_listener; page_listener2])
              [page_listener; page_listener2] ∅ (announce detail_without_info)
              eq_refl eq_refl) as [_ H]; [discriminate|].
  destruct (H TypeError eq_refl) as [Hr _]. exact Hr.
Defined.

(** X8: two wallets with distinct uuids answer one discovery call: two
    entries. *)
Lemma X8_discovery_collects_answers_witness :
  window (browser [wallet1; wallet2]) = Some [wallet1; wallet2] ∧
  registry 0 (browser [wallet1; wallet2]) = Some ∅ ∧
  announced [wallet1; wallet2] = [("abc", wallet1_detail); ("b", wallet2_detail)].*2 ∧
  ∃ m', registry 0 (requestEIP6963Providers 0 (browser [wallet1; wallet2])).2 = Some m' ∧
        size m' = 2.
Proof.
  split_and!; [reflexivity | reflexivity | reflexivity |].
  destruct (X8_discovery_collects_answers 0 (browser [wallet1; wallet2]) [wallet1; wallet2] ∅
              [("abc", wallet1_detail); ("b", wallet2_detail)] eq_refl eq_refl eq_refl)
    as (m' & Hm' & _ & Hsize).
  { repeat constructor. }
  exists m'. split; [exact Hm'|]. apply Hsize.
  - cbn. apply NoDup_cons. split; [|apply NoDup_singleton].
    intros [=]%list_elem_of_singleton.
  - intros. apply lookup_empty.
Defined.

(** X9: the two wallets subscribed in either order; both maps hold the first
    wallet's detail under its uuid. *)
Lemma X9_lookups_independent_of_answer_order_witness :
  announced [wallet1; wallet2] ≡ₚ announced [wallet2; wallet1] ∧
  ∃ m1 m2,
    registry 0 (requestEIP6963Providers 0 (browser [wallet1; wallet2])).2 = Some m1 ∧
    registry 0 (requestEIP6963Providers 0 (browser [wallet2; wallet1])).2 = Some m2 ∧
    m1 !! KString "abc" = m2 !! KString "abc" ∧
    size m1 = size m2.
Proof.
  assert (announced [wallet1; wallet2] ≡ₚ announced [wallet2; wallet1]) as Hp
    by apply Permutation_swap.
  split; [exact Hp|].
  destruct (X9_lookups_independent_of_answer_order 0
              (browser [wallet1; wallet2]) (browser [wallet2; wallet1])
              [wallet1; wallet2] [wallet2; wallet1] ∅ eq_refl eq_refl eq_refl eq_refl Hp)
    as (m1 & m2 & H1 & H2 & Hk & Hsize).
  { change (NoDup [KString "abc"; KString "b"]).
    apply NoDup_cons. split; [|apply NoDup_singleton].
    intros [=]%list_elem_of_singleton. }
  exists m1, m2. split_and!; [exact H1 | exact H2 | exact (Hk (KString "abc")) | exact Hsize].
Defined.
